(** * Streamlit_apps: the dbt-trs generator and the data-masking tool

    A shallow embedding of the two Streamlit utilities of the repository,

    - [dbt-trs-generator.py]: the type normaliser
      [convert_excel_type_to_snowflake] and the SQL text generator
      [generate_dbt_sql_with_mapping];
    - [data_masking.py]: the masking helpers, the dispatcher
      [_apply_masking], the token map kept in the session state and the
      chunked writer [stream_mask_save];

    followed by the properties of the specification that concern them. *)

From Stdlib Require Import ZArith NArith List Lia Bool DecimalNat.
From stdpp Require Import gmap strings list fin_maps.
From Equations Require Import Equations.

Local Open Scope N_scope.

(** ** Python strings

    A Python [str] is a sequence of Unicode code points: [len] counts code
    points and slices cut between them.  The literals of the source are
    written as Rocq strings, whose bytes are the UTF-8 text of this file,
    and decoded by [py]. *)

Module Py.

Abbreviation char := N.
Abbreviation str := (list N).

(** UTF-8 decoding of the bytes of a literal (well-formed input assumed;
    a truncated sequence ends the result). *)
Fixpoint utf8_decode (bs : list N) : str :=
  match bs with
  | [] => []
  | b :: r =>
      if b <? 128 then b :: utf8_decode r
      else if b <? 224 then
        match r with
        | b1 :: r1 => ((b - 192) * 64 + (b1 - 128)) :: utf8_decode r1
        | _ => []
        end
      else if b <? 240 then
        match r with
        | b1 :: b2 :: r2 =>
            ((b - 224) * 4096 + (b1 - 128) * 64 + (b2 - 128)) :: utf8_decode r2
        | _ => []
        end
      else
        match r with
        | b1 :: b2 :: b3 :: r3 =>
            ((b - 240) * 262144 + (b1 - 128) * 4096 + (b2 - 128) * 64 + (b3 - 128))
              :: utf8_decode r3
        | _ => []
        end
  end.

Definition bytes_of (s : string) : list N :=
  map (fun b => N.of_nat (Byte.to_nat b)) (String.list_byte_of_string s).

(** [py "..."] is the Python string with the text of the literal. *)
Definition py (s : string) : str := utf8_decode (bytes_of s).

End Py.

Import Py.

(** ** Sequence operations of Python used by both programs *)

Module Seq.

Section Slices.
Context {A : Type}.

  (** Python clamps a slice bound into [0, len], counting a negative bound
      from the end. *)
Definition slice_bound (len : nat) (i : Z) : nat :=
    let n := Z.of_nat len in
    Z.to_nat (Z.max 0 (Z.min n (if (i <? 0)%Z then (i + n)%Z else i))).

  (** [x[:j]] *)
Definition slice_to (x : list A) (j : Z) : list A :=
    take (slice_bound (length x) j) x.

  (** [x[i:]] *)
Definition slice_from (x : list A) (i : Z) : list A :=
    drop (slice_bound (length x) i) x.

  (** [s * n]: a negative count gives the empty sequence. *)
Definition times (s : list A) (n : Z) : list A :=
    concat (replicate (Z.to_nat n) s).

  (** The longest prefix whose elements satisfy [p], and the rest. *)
Fixpoint span (p : A -> bool) (s : list A) : list A * list A :=
    match s with
    | [] => ([], [])
    | c :: r => if p c then let '(a, b) := span p r in (c :: a, b) else ([], s)
    end.

Definition lstrip (p : A -> bool) (s : list A) : list A := snd (span p s).
Definition rstrip (p : A -> bool) (s : list A) : list A :=
    reverse (lstrip p (reverse s)).

  (** [sep.join(parts)] *)
Fixpoint join (sep : list A) (parts : list (list A)) : list A :=
    match parts with
    | [] => []
    | [p] => p
    | p :: rest => p ++ sep ++ join sep rest
    end.
End Slices.

Section Search.
Context {A : Type} `{EqDecision A}.

Fixpoint startswith (s p : list A) {struct p} : bool :=
    match p, s with
    | [], _ => true
    | a :: p', b :: s' => bool_decide (a = b) && startswith s' p'
    | _ :: _, [] => false
    end.

Definition endswith (s p : list A) : bool :=
    startswith (reverse s) (reverse p).

  (** [needle in hay] for strings: [needle] occurs as a contiguous run. *)
Fixpoint contains (needle hay : list A) : bool :=
    startswith hay needle ||
    match hay with
    | [] => false
    | _ :: t => contains needle t
    end.
End Search.

End Seq.

Import Seq.

(** The part of the Unicode database the programs consult through [str]
    methods and through the [\d] class of [re]. *)
Record Unicode := {
  upper : str -> str;        (* str.upper *)
  lower : str -> str;        (* str.lower *)
  isspace : char -> bool;    (* characters removed by str.strip() *)
  isdecimal : char -> bool   (* characters matched by \d *)
}.

Definition strip (U : Unicode) (s : str) : str :=
  rstrip (isspace U) (lstrip (isspace U) s).

(** The tables restricted to Basic Latin letters and digits.  They agree
    with Python on ASCII text and on scripts without case (kana, CJK
    ideographs); the concrete runs below use them. *)
Definition ascii_upper (c : char) : char :=
  if (97 <=? c) && (c <=? 122) then c - 32 else c.
Definition ascii_lower (c : char) : char :=
  if (65 <=? c) && (c <=? 90) then c + 32 else c.
Definition py_isspace (c : char) : bool :=
  ((9 <=? c) && (c <=? 13)) || ((28 <=? c) && (c <=? 32)) ||
  (c =? 133) || (c =? 160) || (c =? 5760) ||
  ((8192 <=? c) && (c <=? 8202)) || (c =? 8232) || (c =? 8233) ||
  (c =? 8239) || (c =? 8287) || (c =? 12288).
Definition ascii_isdigit (c : char) : bool := (48 <=? c) && (c <=? 57).

Definition basic_latin : Unicode :=
  {| upper := map ascii_upper; lower := map ascii_lower;
     isspace := py_isspace; isdecimal := ascii_isdigit |}.

(** [str(n)] for a non-negative integer, and the [07d] format. *)
Fixpoint uint_chars (d : Decimal.uint) : str :=
  match d with
  | Decimal.Nil => []
  | Decimal.D0 d => 48 :: uint_chars d
  | Decimal.D1 d => 49 :: uint_chars d
  | Decimal.D2 d => 50 :: uint_chars d
  | Decimal.D3 d => 51 :: uint_chars d
  | Decimal.D4 d => 52 :: uint_chars d
  | Decimal.D5 d => 53 :: uint_chars d
  | Decimal.D6 d => 54 :: uint_chars d
  | Decimal.D7 d => 55 :: uint_chars d
  | Decimal.D8 d => 56 :: uint_chars d
  | Decimal.D9 d => 57 :: uint_chars d
  end.

Definition str_of_nat (n : nat) : str := uint_chars (Nat.to_uint n).

(** Left padding with ['0'] up to [width] characters. *)
Definition zfill (width : nat) (s : str) : str :=
  replicate (width - length s) 48 ++ s.


(** ** Exceptions and pandas cells *)

Inductive exn := KeyError | ValueError | TypeError | AttributeError.

Inductive result (A : Type) :=
| Ok (a : A)
| Raise (e : exn).
Arguments Ok {A} a.
Arguments Raise {A} e.

Module Pandas.

(** A cell of an object column: a missing value or a text.  A number read
    from a sheet is represented by the text [str] gives for it. *)
Inductive cell := NaN | Str (s : str).

#[global] Instance cell_eq_dec : EqDecision cell.
Proof. solve_decision. Defined.

Definition notna (c : cell) : bool :=
  match c with NaN => false | Str _ => true end.

(** [str(value)] *)
Definition py_str (c : cell) : str :=
  match c with NaN => py "nan" | Str s => s end.

(** A table: the column labels and the rows in index order, each row
    holding one cell per label.  Labels are unique, as [read_csv] and
    [read_excel] deliver them. *)
Record DataFrame := { columns : list str; rows : list (list cell) }.

Abbreviation frame labels rws := {| columns := labels; rows := rws |}.

(** Position of the column labelled [c]. *)
Definition col_index (df : DataFrame) (c : str) : option nat :=
  fst <$> list_find (λ l, l = c) (columns df).

Definition at_col (j : nat) (row : list cell) : cell := default NaN (row !! j).

(** The cell in row [i] and column position [j], when there is one. *)
Definition cell_at (df : DataFrame) (i j : nat) : option cell :=
  rows df !! i ≫= (λ row, row !! j).

(** [df[mask]] with a list of booleans of the length of [df] *)
Definition boolean_index {A} (xs : list A) (mask : list bool) : list A :=
  fst <$> filter (λ p, snd p = true) (zip xs mask).

End Pandas.

Import Pandas.

(** ** dbt-trs-generator.py *)

Module DbtTrsGenerator.

Definition nl : str := [10].
Definition dq : str := [34].

(** The dictionary [type_mapping], in insertion order (the order in which
    [items()] yields it). *)
Definition type_mapping : list (str * str) :=
  [ (py "文字列", py "varchar");
    (py "VARCHAR", py "varchar");
    (py "CHAR", py "varchar");
    (py "TEXT", py "varchar");
    (py "数値", py "number");
    (py "NUMBER", py "number");
    (py "INT", py "number");
    (py "INTEGER", py "number");
    (py "DECIMAL", py "number");
    (py "NUMERIC", py "number");
    (py "FLOAT", py "float");
    (py "DOUBLE", py "double");
    (py "日付", py "date");
    (py "DATE", py "date");
    (py "日時", py "timestamp");
    (py "DATETIME", py "timestamp");
    (py "TIMESTAMP", py "timestamp");
    (py "時刻", py "time");
    (py "TIME", py "time");
    (py "BOOLEAN", py "boolean");
    (py "BOOL", py "boolean") ].

Definition is_AZ (c : char) : bool := (65 <=? c) && (c <=? 90).

Section WithUnicode.
Variable U : Unicode.

  (** [re.match(r'([A-Z]+)\((\d+)\)', s)]: the groups when the pattern
      matches at the start of [s].  Both repetitions are greedy and the
      character after each run is outside its class, so the longest runs
      are the only candidates. *)
Definition match_sized (s : str) : option (str * str) :=
    let '(letters, r1) := span is_AZ s in
    match letters, r1 with
    | _ :: _, 40 :: r2 =>
        let '(digits, r3) := span (isdecimal U) r2 in
        match digits, r3 with
        | _ :: _, 41 :: _ => Some (letters, digits)
        | _, _ => None
        end
    | _, _ => None
    end.

  (** The [if match:] block: [Some] when it returns. *)
Definition sized_type (m : option (str * str)) : option str :=
    match m with
    | Some (base_type, size) =>
        if bool_decide (base_type ∈ [py "VARCHAR"; py "CHAR"])
        then Some (py "varchar(" ++ size ++ py ")")
        else if bool_decide (base_type ∈ [py "NUMBER"; py "DECIMAL"; py "NUMERIC"])
        then Some (py "number(" ++ size ++ py ")")
        else None
    | None => None
    end.

  (** The loop over [type_mapping.items()]. *)
Fixpoint scan_mapping (tbl : list (str * str)) (excel_type excel_type_upper : str) : str :=
    match tbl with
    | [] => py "varchar(100)"
    | (key, value) :: rest =>
        if contains key excel_type_upper || contains excel_type_upper key then
          if bool_decide (value = py "varchar") && negb (contains (py "(") excel_type)
          then py "varchar(100)"
          else value
        else scan_mapping rest excel_type excel_type_upper
    end.

Definition convert_excel_type_to_snowflake (excel_type : str) : str :=
    match excel_type with
    | [] => py "varchar(100)"
    | _ =>
        let excel_type_upper := strip U (upper U excel_type) in
        match sized_type (match_sized excel_type_upper) with
        | Some t => t
        | None => scan_mapping type_mapping excel_type excel_type_upper
        end
    end.

  (** [selected_rows[:len(df)] + [False] * max(0, len(df) - len(selected_rows))],
      cut to [len(df)]. *)
Definition selected_mask (n : nat) (selected_rows : list bool) : list bool :=
    take n (take n selected_rows ++ replicate (n - length selected_rows) false).

Definition nullif_types : list str :=
    [py "number"; py "int"; py "decimal"; py "float"; py "double"; py "date";
     py "timestamp"].

  (** One entry of [columns]. *)
Definition column_def (col_index : nat) (snowflake_type col_name : str) : str :=
    if existsb (λ t, contains t (lower U snowflake_type)) nullif_types
    then py "            nullif(value:c" ++ str_of_nat col_index ++ py ", '')::"
           ++ snowflake_type ++ py " as " ++ col_name
    else py "            value:c" ++ str_of_nat col_index ++ py "::"
           ++ snowflake_type ++ py " as " ++ col_name.

  (** The first loop over [df_clean.iterrows()]; [p] and [t] are the
      positions of the physical-name and type columns, which are distinct
      labels ([row[label]] is one cell). *)
Fixpoint extraction_columns (p t : nat) (rws : list (list cell)) (col_index : nat)
    : list str :=
    match rws with
    | [] => []
    | row :: rest =>
        let col_name := strip U (py_str (at_col p row)) in
        let data_type :=
          if notna (at_col t row) then strip U (py_str (at_col t row))
          else py "varchar(100)" in
        if bool_decide (col_name = []) || bool_decide (col_name = py "nan")
        then extraction_columns p t rest col_index
        else
          let snowflake_type := convert_excel_type_to_snowflake data_type in
          column_def col_index snowflake_type col_name
            :: extraction_columns p t rest (col_index + 1)
    end.

Definition gender_case (col_name : str) : str :=
    py "    case" ++ nl ++
    py "        when " ++ col_name ++ py " is null" ++ nl ++
    py "        then 0" ++ nl ++
    py "        when " ++ col_name ++ py " = '男'" ++ nl ++
    py "        then 1" ++ nl ++
    py "        when " ++ col_name ++ py " = '女'" ++ nl ++
    py "        then 2" ++ nl ++
    py "        else 9" ++ nl ++
    py "    end as " ++ col_name.

  (** The second loop over [df_clean.iterrows()]. *)
Fixpoint select_columns (p : nat) (rws : list (list cell)) : list str :=
    match rws with
    | [] => []
    | row :: rest =>
        let col_name := strip U (py_str (at_col p row)) in
        if negb (bool_decide (col_name = [])) && negb (bool_decide (col_name = py "nan"))
        then
          (if contains (py "gender") (lower U col_name) || contains (py "性別") col_name
           then gender_case col_name
           else py "    " ++ col_name)
            :: select_columns p rest
        else select_columns p rest
    end.

  (** [df_filtered[cols_to_use].dropna(subset=[physical_col])]: the rows
      kept for generation. *)
Definition clean_rows (p : nat) (df : DataFrame) (selected_rows : option (list bool))
    : list (list cell) :=
    let df_filtered :=
      match selected_rows with
      | Some sel => boolean_index (rows df) (selected_mask (length (rows df)) sel)
      | None => rows df
      end in
    filter (λ row, notna (at_col p row) = true) df_filtered.

Definition sql_text (source_schema source_table : str)
      (cols sel_cols : list str) : str :=
    py "with" ++ nl ++
    py "    -- 取り込みエラー回避のための最低限の処理を行う　※''がエラーとなる型で取り込む場合は、nullに変換する" ++ nl ++
    py "    source_data as (" ++ nl ++
    py "        select" ++
    nl ++ join (py "," ++ nl) cols ++
    nl ++
    py "        from {{ source(" ++ dq ++ source_schema ++ dq ++ py ", " ++ dq
       ++ source_table ++ dq ++ py ") }}" ++ nl ++
    py "    )" ++ nl ++
    nl ++
    py "-- 重複レコードや欠損値、揺らぎの矯正、コード体系の統一等を行う" ++ nl ++
    py "select" ++
    nl ++ join (py "," ++ nl) sel_cols ++
    nl ++ py "from source_data".

  (** The SQL text of [generate_dbt_sql_with_mapping] (the first component
      of its result; the models.yml text is computed afterwards from the
      same rows and does not feed back into the SQL), for role columns
      that are distinct labels.  [Ok None] is the [return None, None] of
      the guard; a role column that is not a label of the sheet raises
      [KeyError]. *)
Definition generate_dbt_sql_with_mapping (df : DataFrame)
      (source_schema source_table : str) (physical_col type_col : str)
      (selected_rows : option (list bool)) : result (option str) :=
    if bool_decide (physical_col = []) || bool_decide (type_col = []) then Ok None
    else
      match col_index df physical_col, col_index df type_col with
      | Some p, Some t =>
          let df_clean := clean_rows p df selected_rows in
          Ok (Some (sql_text source_schema source_table
                      (extraction_columns p t df_clean 1)
                      (select_columns p df_clean)))
      | _, _ => Raise KeyError
      end.

End WithUnicode.

End DbtTrsGenerator.

(** ** hashlib.sha256 (FIPS 180-4) on 32-bit words held in [N] *)

Module Hashlib.

Definition w32 (x : N) : N := x mod 4294967296.
Definition rotr (n x : N) : N := N.lor (N.shiftr x n) (w32 (N.shiftl x (32 - n))).
Definition xor3 (a b c : N) : N := N.lxor a (N.lxor b c).

Definition K : list N :=
  [1116352408; 1899447441; 3049323471; 3921009573; 961987163; 1508970993;
   2453635748; 2870763221; 3624381080; 310598401; 607225278; 1426881987;
   1925078388; 2162078206; 2614888103; 3248222580; 3835390401; 4022224774;
   264347078; 604807628; 770255983; 1249150122; 1555081692; 1996064986;
   2554220882; 2821834349; 2952996808; 3210313671; 3336571891; 3584528711;
   113926993; 338241895; 666307205; 773529912; 1294757372; 1396182291;
   1695183700; 1986661051; 2177026350; 2456956037; 2730485921; 2820302411;
   3259730800; 3345764771; 3516065817; 3600352804; 4094571909; 275423344;
   430227734; 506948616; 659060556; 883997877; 958139571; 1322822218;
   1537002063; 1747873779; 1955562222; 2024104815; 2227730452; 2361852424;
   2428436474; 2756734187; 3204031479; 3329325298].

Definition H0 : list N :=
  [1779033703; 3144134277; 1013904242; 2773480762; 1359893119; 2600822924;
   528734635; 1541459225].

(** [str.encode()]: UTF-8, for a text of Unicode scalar values (a lone
    surrogate, which [encode] rejects with [UnicodeEncodeError], does not
    come out of a file decoded as UTF-8). *)
Definition utf8_encode_char (c : N) : list N :=
  if c <? 128 then [c]
  else if c <? 2048 then [192 + c / 64; 128 + c mod 64]
  else if c <? 65536 then [224 + c / 4096; 128 + (c / 64) mod 64; 128 + c mod 64]
  else [240 + c / 262144; 128 + (c / 4096) mod 64; 128 + (c / 64) mod 64;
        128 + c mod 64].
Definition encode (s : str) : list N := flat_map utf8_encode_char s.

Fixpoint be_bytes (n : nat) (x : N) : list N :=
  match n with
  | O => []
  | S n' => be_bytes n' (x / 256) ++ [x mod 256]
  end.

Definition pad (msg : list N) : list N :=
  let len := length msg in
  msg ++ [128] ++ replicate ((64 - (len + 9) mod 64) mod 64)%nat 0
      ++ be_bytes 8 (8 * N.of_nat len).

Fixpoint words_of (bs : list N) : list N :=
  match bs with
  | a :: b :: c :: d :: r => (((a * 256 + b) * 256 + c) * 256 + d) :: words_of r
  | _ => []
  end.

Definition sig0 (x : N) : N := xor3 (rotr 7 x) (rotr 18 x) (N.shiftr x 3).
Definition sig1 (x : N) : N := xor3 (rotr 17 x) (rotr 19 x) (N.shiftr x 10).

(** The message schedule, most recent word first. *)
Fixpoint extend (n : nat) (rws : list N) : list N :=
  match n with
  | O => rws
  | S n' =>
      extend n'
        (w32 (nth 15 rws 0 + sig0 (nth 14 rws 0) + nth 6 rws 0 + sig1 (nth 1 rws 0))
           :: rws)
  end.

Definition round (st : list N) (kw : N * N) : list N :=
  match st with
  | [a; b; c; d; e; f; g; h] =>
      let S1 := xor3 (rotr 6 e) (rotr 11 e) (rotr 25 e) in
      let ch := N.lxor (N.land e f) (N.land (N.lxor e 4294967295) g) in
      let t1 := h + S1 + ch + fst kw + snd kw in
      let S0 := xor3 (rotr 2 a) (rotr 13 a) (rotr 22 a) in
      let maj := xor3 (N.land a b) (N.land a c) (N.land b c) in
      [w32 (t1 + S0 + maj); a; b; c; w32 (d + t1); e; f; g]
  | _ => st
  end.

Definition compress (h : list N) (block : list N) : list N :=
  let w := rev (extend 48 (rev block)) in
  zip_with (λ x y, w32 (x + y)) h (fold_left round (zip K w) h).

Fixpoint blocks (n : nat) (ws : list N) : list (list N) :=
  match n with
  | O => []
  | S n' => take 16 ws :: blocks n' (drop 16 ws)
  end.

Definition sha256 (msg : list N) : list N :=
  let ws := words_of (pad msg) in
  fold_left compress (blocks (length ws / 16) ws) H0.

Definition hex_digit (d : N) : N := if d <? 10 then 48 + d else 87 + d.
Definition hex_byte (b : N) : str := [hex_digit (b / 16); hex_digit (b mod 16)].

(** [hashlib.sha256(data).hexdigest()] *)
Definition sha256_hexdigest (data : list N) : str :=
  flat_map (λ w, flat_map hex_byte (be_bytes 4 w)) (sha256 data).

End Hashlib.

(** ** The interface of [re] the masking tool relies on *)

Module Re.

(** A match object: the span of group 0 in the subject and the texts of
    the numbered groups. *)
Record match_obj := { m_start : nat; m_end : nat; m_groups : list str }.

(** [m.group(0)] for a match in [subject], and [m.group(k)] for [k >= 1]. *)
Definition group0 (subject : str) (m : match_obj) : str :=
  take (m_end m - m_start m) (drop (m_start m) subject).
Definition group (m : match_obj) (k : nat) : str :=
  default [] (m_groups m !! (k - 1)%nat).

(** What the engine guarantees for a search started at [pos]: the match
    lies in the subject at or after [pos], and after an empty match
    ([must_advance]) it ends beyond [pos]. *)
Definition admissible (subject : str) (pos : nat) (must_advance : bool)
    (m : match_obj) : Prop :=
  (pos ≤ m_start m ∧ m_start m ≤ m_end m ∧ m_end m ≤ length subject ∧
   (must_advance = true → pos < m_end m))%nat.

(** A compiled pattern: the search for the leftmost match from a position. *)
Record regex := {
  search : str → nat → bool → option match_obj;
  search_admissible :
    ∀ subject pos must_advance m,
      search subject pos must_advance = Some m →
      admissible subject pos must_advance m
}.

(** Matching on a value while keeping the equation that produced it. *)
Definition inspect {A : Type} (x : A) : { y : A | x = y } := exist _ x eq_refl.

(** The loop of [Pattern.sub] with a callable replacement: the text
    between matches is copied, each match is replaced by [repl], and the
    search resumes at the end of the match. *)
Equations? sub_from (re : regex) (repl : match_obj → str) (subject : str)
    (pos : nat) (must_advance : bool) : str
  by wf (2 * (length subject - pos) + (if must_advance then 0 else 1))%nat lt :=
  sub_from re repl subject pos must_advance
    with inspect (search re subject pos must_advance) := {
    | exist _ None _ => drop pos subject
    | exist _ (Some m) Hm =>
        take (m_start m - pos) (drop pos subject) ++ repl m ++
        sub_from re repl subject (m_end m) (bool_decide (m_end m = m_start m)) }.
Proof.
  apply search_admissible in Hm as (H1 & H2 & H3 & H4).
  destruct must_advance; case_bool_decide; try specialize (H4 eq_refl); lia.
Qed.

(** [reg.sub(repl, subject)] *)
Definition sub (re : regex) (repl : match_obj → str) (subject : str) : str :=
  sub_from re repl subject 0 false.

End Re.

(** ** A small matcher used to run the masking tool on concrete tables

    Python's engine is not reproduced.  [MiniRe] builds compiled patterns
    from anchored matchers for the three preset patterns of the tool and
    for a few user patterns; they satisfy the interface of [Re]. *)

Module MiniRe.
Import Re.

(** An anchored matcher gives the length of the match at the start of its
    argument, with the texts of its groups. *)
Definition anchored := str → option (nat * list str).

Definition attempt (at_start : anchored) (rest : str) (p : nat) (must_advance : bool)
  : option match_obj :=
  match at_start rest with
  | Some (n, gs) =>
      let n' := (n `min` length rest)%nat in
      if must_advance && (n' =? 0)%nat then None
      else Some {| m_start := p; m_end := (p + n')%nat; m_groups := gs |}
  | None => None
  end.

Fixpoint scan_from (at_start : anchored) (rest : str) (p : nat) (must_advance : bool)
  : option match_obj :=
  match attempt at_start rest p must_advance with
  | Some m => Some m
  | None =>
      match rest with
      | [] => None
      | _ :: r => scan_from at_start r (S p) false
      end
  end.

Definition scan (at_start : anchored) (subject : str) (pos : nat) (must_advance : bool)
  : option match_obj :=
  if (pos <=? length subject)%nat
  then scan_from at_start (drop pos subject) pos must_advance
  else None.

Lemma scan_from_admissible at_start rest p adv m subject :
  (p + length rest = length subject)%nat →
  scan_from at_start rest p adv = Some m →
  admissible subject p adv m.
Proof.
  revert p adv. induction rest as [|c r IH]; intros p adv Hlen; simpl.
  - unfold attempt. destruct (at_start []) as [[n gs]|]; [|done].
    destruct (adv && _) eqn:E; [done|]. intros [= <-]. unfold admissible; simpl.
    simpl in *. repeat split; try lia. intros ->. simpl in E.
    apply Nat.eqb_neq in E. lia.
  - unfold attempt. destruct (at_start (c :: r)) as [[n gs]|].
    + destruct (adv && _) eqn:E.
      * intros H. apply IH in H; [|simpl in Hlen; lia].
        destruct H as (?&?&?&?). unfold admissible. repeat split; lia.
      * intros [= <-]. unfold admissible; simpl. simpl in Hlen.
        repeat split; try lia. intros ->. simpl in E.
        apply Nat.eqb_neq in E. lia.
    + intros H. apply IH in H; [|simpl in Hlen; lia].
      destruct H as (?&?&?&?). unfold admissible. repeat split; lia.
Qed.

Lemma scan_admissible at_start subject pos adv m :
  scan at_start subject pos adv = Some m → admissible subject pos adv m.
Proof.
  unfold scan. destruct (pos <=? length subject)%nat eqn:E; [|done].
  apply Nat.leb_le in E. apply scan_from_admissible.
  rewrite length_drop. lia.
Qed.

Definition compiled (at_start : anchored) : regex :=
  {| search := scan at_start; search_admissible := scan_admissible at_start |}.

Definition is_digit (c : char) : bool := (48 <=? c) && (c <=? 57).
Definition is_alnum (c : char) : bool :=
  is_digit c || ((65 <=? c) && (c <=? 90)) || ((97 <=? c) && (c <=? 122)).

(** [\d+] and [\d] *)
Definition digits_run : anchored := λ s,
  match fst (span is_digit s) with
  | [] => None
  | ds => Some (length ds, [])
  end.
Definition one_digit : anchored := λ s,
  match s with
  | c :: _ => if is_digit c then Some (1%nat, []) else None
  | [] => None
  end.

(** [[^\d]] *)
Definition one_nondigit : anchored := λ s,
  match s with
  | c :: _ => if is_digit c then None else Some (1%nat, [])
  | [] => None
  end.

(** A pattern without metacharacters matches its own text. *)
Definition literal (p : str) : anchored := λ s,
  if startswith s p then Some (length p, []) else None.

(** [([A-Za-z0-9._%+-]+)@([A-Za-z0-9.-]+)] *)
Definition is_local (c : char) : bool :=
  is_alnum c || bool_decide (c ∈ py "._%+-").
Definition is_domain (c : char) : bool :=
  is_alnum c || bool_decide (c ∈ py ".-").
Definition email : anchored := λ s,
  match span is_local s with
  | ((_ :: _) as g1, 64 :: r) =>
      match fst (span is_domain r) with
      | [] => None
      | g2 => Some (length g1 + 1 + length g2, [g1; g2])%nat
      end
  | _ => None
  end.

(** [(\d{2,4})([- ]?)(\d{2,4})([- ]?)(\d{3,4})]: the alternatives are tried
    in the order of a backtracking engine, longest repetition first. *)
Definition first_some {A B} (f : A → option B) (xs : list A) : option B :=
  foldr (λ x acc, match f x with Some b => Some b | None => acc end) None xs.

Definition digits_n (n : nat) (s : str) : option (str * str) :=
  let d := take n s in
  if (length d =? n)%nat && forallb is_digit d then Some (d, drop n s) else None.

Definition opt_sep (s : str) : list (str * str) :=
  match s with
  | c :: r => if bool_decide (c ∈ py "- ") then [([c], r); ([], s)] else [([], s)]
  | [] => [([], s)]
  end.

Definition phone : anchored := λ s,
  first_some (λ n1,
    '(g1, r1) ← digits_n n1 s;
    first_some (λ '(g2, r2),
      first_some (λ n3,
        '(g3, r3) ← digits_n n3 r2;
        first_some (λ '(g4, r4),
          first_some (λ n5,
            '(g5, _) ← digits_n n5 r4;
            Some (length (g1 ++ g2 ++ g3 ++ g4 ++ g5), [g1; g2; g3; g4; g5]))
          [4; 3]%nat)
        (opt_sep r3))
      [4; 3; 2]%nat)
    (opt_sep r1))
  [4; 3; 2]%nat.

(** The user patterns understood here: [\d+], [\d], and a non-empty text
    of letters, digits and spaces.  [None] stands for [re.error]. *)
Definition compile (pattern : str) : option regex :=
  if bool_decide (pattern = py "\d+") then Some (compiled digits_run)
  else if bool_decide (pattern = py "\d") then Some (compiled one_digit)
  else match pattern with
       | [] => None
       | _ => if forallb (λ c, is_alnum c || (c =? 32)) pattern
              then Some (compiled (literal pattern)) else None
       end.

End MiniRe.

(** ** data_masking.py *)

Module DataMasking.
Import Re.

(** What the tool takes from its libraries and cannot be read off its own
    text: the regular-expression engine, and the release of pandas. *)
Record Runtime := {
  (** [re.compile(pattern)]; [None] is [re.error]. *)
  re_compile : str → option regex;
  (** The three patterns of [PRESETS], compiled. *)
  email_re : regex;
  phone_re : regex;
  nondigit_re : regex;
  (** What [Series.astype(str)] makes of a missing value: the text
      ['nan'] up to pandas 2, still a missing value from pandas 3 on. *)
  astype_str_na : cell
}.

Definition mini_runtime (na : cell) : Runtime :=
  {| re_compile := MiniRe.compile;
     email_re := MiniRe.compiled MiniRe.email;
     phone_re := MiniRe.compiled MiniRe.phone;
     nondigit_re := MiniRe.compiled MiniRe.one_nondigit;
     astype_str_na := na |}.

Definition star : str := py "*".

(** [s.astype(str).fillna("")], cell by cell: the text of the cell. *)
Definition astype_str (R : Runtime) (c : cell) : cell :=
  match c with
  | NaN => astype_str_na R
  | Str s => Str s
  end.
Definition fillna_empty (c : cell) : str :=
  match c with
  | NaN => []
  | Str s => s
  end.
Definition as_text (R : Runtime) (c : cell) : str := fillna_empty (astype_str R c).

Definition sha256_hash (x salt : str) : str :=
  Hashlib.sha256_hexdigest (Hashlib.encode (salt ++ x)).

(** The session state: [st.session_state.token_map]. *)
Abbreviation token_map := (gmap str str).

(** [f"{prefix}{counter:07d}"] *)
Definition token (prefix : str) (counter : nat) : str :=
  prefix ++ zfill 7 (str_of_nat counter).

(** The loop shared by [tokenize_series] and the tokenisation branch of
    [_apply_masking]: [tm] is updated in place, [counter] is the local
    variable. *)
Fixpoint tokenize_loop (prefix : str) (tm : token_map) (counter : nat) (vs : list str)
  : token_map * list str :=
  match vs with
  | [] => (tm, [])
  | v :: rest =>
      if bool_decide (v = []) then
        let '(tm', out) := tokenize_loop prefix tm counter rest in (tm', [] :: out)
      else
        match tm !! v with
        | Some t =>
            let '(tm', out) := tokenize_loop prefix tm counter rest in (tm', t :: out)
        | None =>
            let t := token prefix counter in
            let '(tm', out) :=
              tokenize_loop prefix (<[v := t]> tm) (counter + 1) rest in
            (tm', t :: out)
        end
  end.

(** One turn of the loop when [counter] is one more than the number of
    entries, as it is when the loop starts. *)
Definition tokenize_step (prefix : str) (tm : token_map) (v : str) : token_map * str :=
  if bool_decide (v = []) then (tm, [])
  else match tm !! v with
       | Some t => (tm, t)
       | None => (<[v := token prefix (size tm + 1)]> tm, token prefix (size tm + 1))
       end.

(** A map whose entries carry distinct tokens, numbered from 1 to the
    number of entries: what the tool builds from the empty map, and what
    it exports. *)
Definition numbered (prefix : str) (tm : token_map) : Prop :=
  (∀ v1 v2 t, tm !! v1 = Some t → tm !! v2 = Some t → v1 = v2) ∧
  (∀ v t, tm !! v = Some t → ∃ n, (1 ≤ n ≤ size tm)%nat ∧ t = token prefix n).

Definition tokenize_values (prefix : str) (tm : token_map) (vs : list str)
  : token_map * list str :=
  tokenize_loop prefix tm (size tm + 1) vs.

Definition tokenize_series (R : Runtime) (tm : token_map) (series : list cell) (prefix : str)
  : token_map * list cell :=
  let '(tm', out) := tokenize_values prefix tm (as_text R <$> series) in
  (tm', Str <$> out).

(** The "load map" button: [token_map.update(json.load(f))]. *)
Definition import_token_map (tm imported : token_map) : token_map := imported ∪ tm.

(** The lambda of the partial mask:
    [x[:head] + "*" * max(0, len(x) - head - tail) + x[-tail:]] if [x]
    is non-empty. *)
Definition keep_head_tail (head tail : Z) (x : str) : str :=
  match x with
  | [] => []
  | _ =>
      slice_to x head
        ++ times star (Z.max 0 (Z.of_nat (length x) - head - tail))
        ++ slice_from x (- tail)
  end.

Definition mask_keep_head_tail (R : Runtime) (s : list cell) (head tail : Z) : list cell :=
  (λ c, Str (keep_head_tail head tail (as_text R c))) <$> s.

(** The lambda of [mask_regex_sub]:
    [reg.sub(lambda m: repl_char * len(m.group(0)), x)] if [x] is
    non-empty; the dispatcher has it with ["*"] for [repl_char]. *)
Definition regex_repl (reg : regex) (repl_char : str) (x : str) : str :=
  match x with
  | [] => []
  | _ => sub reg (λ m, times repl_char (Z.of_nat (length (group0 x m)))) x
  end.
Definition regex_stars (reg : regex) (x : str) : str := regex_repl reg star x.

(** [Series.apply] with a function that may raise. *)
Fixpoint apply_result {A B} (f : A → result B) (l : list A) : result (list B) :=
  match l with
  | [] => Ok []
  | a :: rest =>
      match f a with
      | Raise e => Raise e
      | Ok b =>
          match apply_result f rest with
          | Raise e => Raise e
          | Ok bs => Ok (b :: bs)
          end
      end
  end.

(** [mask_regex_sub]: an invalid pattern is reported and the series is
    returned as it is.  The series goes through [astype(str)] only: a
    value that is still missing afterwards is not a string and [reg.sub]
    rejects it. *)
Definition mask_regex_sub (R : Runtime) (s : list cell) (pattern repl_char : str)
  : result (list cell) :=
  match re_compile R pattern with
  | None => Ok s
  | Some reg =>
      apply_result
        (λ c, match astype_str R c with
              | NaN => Raise TypeError
              | Str x => Ok (Str (regex_repl reg repl_char x))
              end) s
  end.

(** The six entries of the method selector; any other text selects no
    branch of the dispatcher. *)
Inductive method :=
| FullMask        (* 全マスク(****) *)
| KeepHeadTail    (* 先頭N/末尾M以外マスク *)
| Sha256Hash      (* SHA256ハッシュ *)
| Tokenize        (* トークン化(一意マッピング) *)
| RegexMask       (* 正規表現で一致部分のみマスク *)
| PresetMask      (* プリセット: Email/Phone/CreditCard *)
| OtherMethod.

#[global] Instance method_eq_dec : EqDecision method.
Proof. solve_decision. Defined.

Inductive preset_key := Email | Phone | CreditCard.

(** The functions of [PRESETS]. *)
Definition PRESETS (R : Runtime) (k : preset_key) (x : str) : str :=
  match k with
  | Email =>
      sub (email_re R)
        (λ m, group m 1 ++ py "@" ++ times star (Z.of_nat (length (group m 2)))) x
  | Phone =>
      sub (phone_re R)
        (λ m, group m 1 ++ group m 2 ++ times star (Z.of_nat (length (group m 3)))
                ++ group m 4 ++ group m 5) x
  | CreditCard =>
      let digits := sub (nondigit_re R) (λ _, []) x in
      times star (Z.max 0 (Z.of_nat (length digits) - 4)) ++ slice_from digits (-4)
  end.

(** The masking policy, with the fields of the [policy] record the tool
    saves. *)
Record Policy := {
  cols : list str;
  meth : method;
  head_n : Z;
  tail_n : Z;
  salt : str;
  regex_pat : str;
  preset : option preset_key
}.

(** The policy [P] with another list of target columns. *)
Definition with_cols (P : Policy) (cs : list str) : Policy :=
  {| cols := cs; meth := meth P; head_n := head_n P; tail_n := tail_n P;
     salt := salt P; regex_pat := regex_pat P; preset := preset P |}.

Definition if_nonempty (f : str → str) (x : str) : str :=
  match x with
  | [] => []
  | _ => f x
  end.

(** The branch of [_apply_masking] for one column with texts [s]:
    the new contents of the column, or [None] when no branch assigns it. *)
Definition mask_column (R : Runtime) (P : Policy) (tm : token_map) (s : list str)
  : result (token_map * option (list str)) :=
  match meth P with
  | FullMask => Ok (tm, Some (if_nonempty (λ _, py "****") <$> s))
  | KeepHeadTail => Ok (tm, Some (keep_head_tail (head_n P) (tail_n P) <$> s))
  | Sha256Hash => Ok (tm, Some (if_nonempty (λ x, sha256_hash x (salt P)) <$> s))
  | Tokenize =>
      let '(tm', out) := tokenize_values (py "TKN_") tm s in Ok (tm', Some out)
  | RegexMask =>
      match regex_pat P with
      | [] => Ok (tm, None)
      | _ =>
          match re_compile R (regex_pat P) with
          | Some reg => Ok (tm, Some (regex_stars reg <$> s))
          | None => Ok (tm, None)
          end
      end
  | PresetMask =>
      match preset P with
      | Some k => Ok (tm, Some (if_nonempty (PRESETS R k) <$> s))
      | None => Raise KeyError
      end
  | OtherMethod => Ok (tm, None)
  end.

(** The policies under which the dispatcher assigns the target columns:
    all but the regex method without a usable pattern and a method name
    it does not know. *)
Definition assigns (R : Runtime) (P : Policy) : Prop :=
  match meth P with
  | RegexMask => regex_pat P ≠ [] ∧ is_Some (re_compile R (regex_pat P))
  | OtherMethod => False
  | _ => True
  end.

(** [chunk[c]] and [chunk[c] = new] for the column at position [j]. *)
Definition get_col (j : nat) (rws : list (list cell)) : list cell := at_col j <$> rws.
Definition set_col (j : nat) (new : list str) (rws : list (list cell))
  : list (list cell) :=
  zip_with (λ row v, <[j := Str v]> row) rws new.

(** The loop [for c in cols] of [_apply_masking]. *)
Fixpoint apply_cols (R : Runtime) (P : Policy) (cs : list str) (tm : token_map)
    (chunk : DataFrame) : result (token_map * DataFrame) :=
  match cs with
  | [] => Ok (tm, chunk)
  | c :: rest =>
      match col_index chunk c with
      | None => apply_cols R P rest tm chunk
      | Some j =>
          let s := as_text R <$> get_col j (rows chunk) in
          match mask_column R P tm s with
          | Raise e => Raise e
          | Ok (tm', None) => apply_cols R P rest tm' chunk
          | Ok (tm', Some new) =>
              apply_cols R P rest tm'
                {| columns := columns chunk; rows := set_col j new (rows chunk) |}
          end
      end
  end.

(** [_apply_masking]: the parameters [cols], [method], [head_n], [tail_n],
    [salt], [regex_pat] and [preset] of the source are the fields of [P];
    the token map of the session is passed in and returned. *)
Definition _apply_masking (R : Runtime) (P : Policy) (tm : token_map) (chunk : DataFrame)
  : result (token_map * DataFrame) :=
  apply_cols R P (cols P) tm chunk.

(** *** The chunked writer *)

Definition tab : str := [9].
Definition slash : char := 47.

Definition _sep_from_path (U : Unicode) (path : str) : str :=
  let lower := lower U path in
  if endswith lower (py ".tsv") || endswith lower (py ".tsv.gz") then tab else py ",".

(** [os.path.basename], [os.path.dirname] and [os.path.join] as
    [posixpath] defines them. *)
Definition basename (p : str) : str :=
  reverse (fst (span (λ c, negb (c =? slash)) (reverse p))).
Definition dirname (p : str) : str :=
  let head := take (length p - length (basename p)) p in
  if bool_decide (head ≠ []) && negb (forallb (λ c, c =? slash) head)
  then rstrip (λ c, c =? slash) head
  else head.
Definition path_join (a b : str) : str :=
  if startswith b [slash] then b
  else if bool_decide (a = []) || endswith a [slash] then a ++ b
  else a ++ [slash] ++ b.

Definition suffixes : list str :=
  [py ".csv.gz"; py ".tsv.gz"; py ".xlsx"; py ".xls"; py ".csv"; py ".tsv"].

(** The name of the output file computed at the start of
    [stream_mask_save]. *)
Definition out_name (U : Unicode) (path : str) (gzip_save : bool) : str :=
  let sep := _sep_from_path U path in
  let base := basename path in
  let lower := lower U base in
  let base :=
    match List.find (λ suf, endswith lower suf) suffixes with
    | Some suf => slice_to base (- Z.of_nat (length suf))
    | None => base
    end in
  let ext := if bool_decide (sep = tab) then py ".tsv" else py ".csv" in
  let out_name := base ++ py "_maked" ++ ext in
  if gzip_save && bool_decide (ext = py ".csv") then out_name ++ py ".gz"
  else out_name.

(** The contents of a delimited file: a byte-order mark, a line of
    labels or a line of cells. *)
Inductive line :=
| BOM
| HeaderLine (labels : list str)
| DataLine (cells : list cell).

#[global] Instance line_eq_dec : EqDecision line.
Proof. solve_decision. Defined.

(** [compression = "gzip" if gzip_save and ext == ".csv" else None] *)
Definition compression (U : Unicode) (path : str) (gzip_save : bool) : bool :=
  let sep := _sep_from_path U path in
  let ext := if bool_decide (sep = tab) then py ".tsv" else py ".csv" in
  gzip_save && bool_decide (ext = py ".csv").

(** The lines of [df] as [to_csv(..., index=False, header=...)] lays them
    out. *)
Definition csv_text (df : DataFrame) (header : bool) : list line :=
  (if header then [HeaderLine (columns df)] else []) ++ (DataLine <$> rows df).

(** What [df.to_csv(out_path, mode="a", ..., encoding="utf-8-sig",
    compression=...)] appends to a file that holds [file].  The encoder
    of [utf-8-sig] puts a byte-order mark before the first text it is
    given when the writer starts at position 0: for a plain file that is
    the case when the file is empty, under gzip for every call, each call
    starting a member of its own. *)
Definition to_csv (df : DataFrame) (header : bool) (compression : bool)
    (file : list line) : list line :=
  let text := csv_text df header in
  if (compression || bool_decide (file = [])) && negb (bool_decide (text = []))
  then BOM :: text else text.

(** The batches after the first one that [read_csv(..., chunksize=...)]
    yields: consecutive runs of [chunksize] rows while rows remain. *)
Equations? chunk_rows {A} (chunksize : nat) (rws : list A) : list (list A)
  by wf (length rws) lt :=
  chunk_rows 0 _ := [];
  chunk_rows _ [] := [];
  chunk_rows (S k) (r :: rest) :=
    take (S k) (r :: rest) :: chunk_rows (S k) (drop (S k) (r :: rest)).
Proof. simpl. rewrite length_drop. lia. Qed.

(** The iteration of [pd.read_csv(path, chunksize=chunksize, ...)] over
    the table of the file: a chunk size below 1 is rejected; the first
    batch is delivered even when the file has no data row. *)
Definition read_csv_chunks (chunksize : nat) (table : DataFrame) : result (list DataFrame) :=
  match chunksize with
  | O => Raise ValueError
  | _ =>
      Ok ((λ rws, {| columns := columns table; rows := rws |}) <$>
            (take chunksize (rows table)
               :: chunk_rows chunksize (drop chunksize (rows table))))
  end.

(** The loop [for chunk in pd.read_csv(...)]: each batch is masked and
    appended to the output file. *)
Fixpoint stream_chunks (R : Runtime) (P : Policy) (compression : bool)
    (chunks : list DataFrame) (write_header : bool) (tm : token_map)
    (file : list line)
  : result (token_map * list line) :=
  match chunks with
  | [] => Ok (tm, file)
  | chunk :: rest =>
      match _apply_masking R P tm chunk with
      | Raise e => Raise e
      | Ok (tm', chunk') =>
          stream_chunks R P compression rest false tm'
            (file ++ to_csv chunk' write_header compression file)
      end
  end.

(** [stream_mask_save].  [table] is the table the reader finds in the
    delimited file at [path] (with or without a header row, as
    [header_has_names] asks), [existing] the contents of the output file
    before the run ([[]] when there is none or it is empty).  The result
    is the output path, the token map and the contents of the output
    file.  For an Excel path [read_table_from_path] is called without a
    sheet name and hands back the dictionary of all sheets, on which
    neither [chunk.columns] nor [to_csv] exists: [AttributeError]. *)
Definition out_path (U : Unicode) (path : str) (out_dir : option str)
    (gzip_save : bool) : str :=
  let out_dir :=
    match out_dir with
    | Some ((_ :: _) as d) => d
    | _ => dirname path
    end in
  path_join out_dir (out_name U path gzip_save).

Definition stream_mask_save (U : Unicode) (R : Runtime) (P : Policy) (path : str)
    (table : DataFrame) (chunksize : nat) (out_dir : option str) (gzip_save : bool)
    (tm : token_map) (existing : list line)
  : result (str * token_map * list line) :=
  let out_path := out_path U path out_dir gzip_save in
  if endswith (lower U path) (py ".xlsx") || endswith (lower U path) (py ".xls") then
    Raise AttributeError
  else
    match read_csv_chunks chunksize table with
    | Raise e => Raise e
    | Ok chunks =>
        match stream_chunks R P (compression U path gzip_save) chunks true tm existing with
        | Raise e => Raise e
        | Ok (tm', file) => Ok (out_path, tm', file)
        end
    end.

(** The methods other than tokenisation rewrite a column cell by cell:
    the function applied to each text, [None] when the column is left as
    it is. *)
Definition cell_op (R : Runtime) (P : Policy) : result (option (str → str)) :=
  match meth P with
  | FullMask => Ok (Some (if_nonempty (λ _, py "****")))
  | KeepHeadTail => Ok (Some (keep_head_tail (head_n P) (tail_n P)))
  | Sha256Hash => Ok (Some (if_nonempty (λ x, sha256_hash x (salt P))))
  | Tokenize => Ok None
  | RegexMask =>
      match regex_pat P with
      | [] => Ok None
      | _ => Ok (regex_stars <$> re_compile R (regex_pat P))
      end
  | PresetMask =>
      match preset P with
      | Some k => Ok (Some (if_nonempty (PRESETS R k)))
      | None => Raise KeyError
      end
  | OtherMethod => Ok None
  end.

(** The policies for which batches can be masked one after the other:
    every method but tokenisation, and tokenisation of at most one column
    of the table. *)
Definition batchable (P : Policy) (labels : list str) : Prop :=
  meth P ≠ Tokenize ∨ (length (filter (λ c, c ∈ labels) (cols P)) ≤ 1)%nat.

Definition row_op (R : Runtime) (j : nat) (f : str → str) (row : list cell)
  : list cell :=
  <[j := Str (f (as_text R (at_col j row)))]> row.

End DataMasking.

(** ** Definitions that follow the words of the specification *)

Module Spec.







(** Section 4.3, partial mask: "first [head_keep] chars + ([*] x max(0,
    length - head_keep - tail_keep)) + last [tail_keep] chars". *)
Definition partial_mask (head_keep tail_keep : nat) (x : str) : str :=
  take head_keep x
    ++ replicate (length x - head_keep - tail_keep) 42
    ++ drop (length x - tail_keep) x.

End Spec.

(** ** Tables and policies used in the concrete runs *)

Module Examples.
Import DbtTrsGenerator DataMasking.

(** The three design rows of the example of section 8, with the labels of
    the two role columns. *)
Definition example_rows : DataFrame :=
  {| columns := [py "name"; py "type"];
     rows := [ [Str (py "id"); Str (py "INT")];
               [Str (py ""); Str (py "VARCHAR")];
               [Str (py "gender"); Str (py "NUMBER")] ] |}.

Definition example_sql : str :=
  join nl
    [ py "with";
      py "    -- 取り込みエラー回避のための最低限の処理を行う　※''がエラーとなる型で取り込む場合は、nullに変換する";
      py "    source_data as (";
      py "        select";
      py "            nullif(value:c1, '')::number as id,";
      py "            nullif(value:c2, '')::number as gender";
      py "        from {{ source(" ++ dq ++ py "test" ++ dq ++ py ", " ++ dq
        ++ py "customer_master" ++ dq ++ py ") }}";
      py "    )";
      py "";
      py "-- 重複レコードや欠損値、揺らぎの矯正、コード体系の統一等を行う";
      py "select";
      py "    id,";
      py "    case";
      py "        when gender is null";
      py "        then 0";
      py "        when gender = '男'";
      py "        then 1";
      py "        when gender = '女'";
      py "        then 2";
      py "        else 9";
      py "    end as gender";
      py "from source_data" ].

Definition demo_table : DataFrame :=
  {| columns := [py "id"; py "name"; py "memo"];
     rows := [ [Str (py "1"); Str (py "alice"); Str (py "")];
               [Str (py "2"); Str (py "bob"); NaN] ] |}.

Definition demo_policy (m : method) (targets : list str) : Policy :=
  {| cols := targets; meth := m; head_n := 2; tail_n := 2; salt := [];
     regex_pat := py "\d+"; preset := None |}.

Definition people : DataFrame :=
  {| columns := [py "name"; py "tel"];
     rows := [ [Str (py "sato"); Str (py "03-1234")];
               [Str (py "suzuki"); Str (py "06-5678")];
               [Str (py "sato"); Str (py "")] ] |}.

End Examples.

(** ** Auxiliary notions for the further properties of the masking tool *)

Module DataMaskingMore.
Import Re DataMasking.

(** The policies under which no branch of the dispatcher assigns a column:
    a method name it does not know, and the regex method with an empty
    pattern or one that does not compile. *)
Definition leaves_columns (R : Runtime) (P : Policy) : Prop :=
  meth P = OtherMethod ∨
  (meth P = RegexMask ∧ (regex_pat P = [] ∨ re_compile R (regex_pat P) = None)).

(** The rows of a table after the columns [cs] have been rewritten cell by
    cell with [f], in the order of [cs]. *)
Definition rewrite_rows (R : Runtime) (labels : list str) (f : str → str)
    (cs : list str) (rws : list (list cell)) : list (list cell) :=
  foldl (λ rws c,
           match col_index (frame labels rws) c with
           | Some j => row_op R j f <$> rws
           | None => rws
           end) rws cs.

(** A row whose cell at position [j], if any, is a text that [f] leaves as
    it is. *)
Definition settled (f : str → str) (j : nat) (row : list cell) : Prop :=
  ∀ c, row !! j = Some c → ∃ v, c = Str v ∧ f v = v.

(** Two runs of rows of equal length that agree on every column whose
    label is not in [targets]. *)
Definition same_untargeted (labels targets : list str) (r r' : list (list cell)) : Prop :=
  length r' = length r ∧
  ∀ i j l, labels !! j = Some l → l ∉ targets →
           cell_at (frame labels r') i j = cell_at (frame labels r) i j.

(** How [read_table_from_path] and [read_preview_from_path] open a file:
    both pick the reader and the separator from the lower-cased path in
    the same way. *)
Inductive read_call :=
| ReadExcel                             (* pd.read_excel *)
| ReadCsv (sep : str) (gzip : bool).    (* pd.read_csv, with or without compression *)

Definition read_table_from_path (U : Unicode) (path : str) : read_call :=
  let lower := lower U path in
  if endswith lower (py ".xlsx") || endswith lower (py ".xls") then ReadExcel
  else if endswith lower (py ".gz") then
    ReadCsv (if endswith lower (py ".tsv.gz") || contains (py ".tsv") lower
             then tab else py ",") true
  else ReadCsv (if endswith lower (py ".tsv") then tab else py ",") false.

(** The matches [Pattern.sub] replaces, in the order it finds them: the
    scan of [sub_from] without the copying, which is also what
    [Pattern.finditer] yields. *)
Equations? finditer_from (re : regex) (subject : str) (pos : nat)
    (must_advance : bool) : list match_obj
  by wf (2 * (length subject - pos) + (if must_advance then 0 else 1))%nat lt :=
  finditer_from re subject pos must_advance
    with inspect (search re subject pos must_advance) := {
    | exist _ None _ => []
    | exist _ (Some m) Hm =>
        m :: finditer_from re subject (m_end m) (bool_decide (m_end m = m_start m)) }.
Proof.
  apply search_admissible in Hm as (H1 & H2 & H3 & H4).
  destruct must_advance; case_bool_decide; try specialize (H4 eq_refl); lia.
Qed.

Definition finditer (re : regex) (subject : str) : list match_obj :=
  finditer_from re subject 0 false.

(** Position [i] lies in the span of [m]. *)
Definition in_match (i : nat) (m : match_obj) : bool :=
  (m_start m <=? i)%nat && (i <? m_end m)%nat.

End DataMaskingMore.

(** ** The rest of the generator: the models.yml text and the detection of
    the role columns *)

Module DbtTrsGeneratorMore.
Import DbtTrsGenerator.

Lemma span_snd_length {A} (f : A → bool) (s : list A) :
  (length (snd (span f s)) ≤ length s)%nat.
Proof.
  induction s as [|c s IH]; simpl; [done|].
  destruct (f c); [|done]. destruct (span f s). simpl in *. lia.
Qed.

Section WithUnicode.
Variable U : Unicode.

(** [s.replace(old, new)] for a one-character [old], which is how the
    generator calls it. *)
Definition replace (old : char) (new : str) (s : str) : str :=
  flat_map (λ c, if bool_decide (c = old) then new else [c]) s.

(** [s.split()]: white space is skipped, the maximal run of other
    characters that follows is a word, and so on to the end. *)
Equations? split (s : str) : list str by wf (length s) lt :=
  split s with Re.inspect (lstrip (isspace U) s) := {
    | exist _ [] _ => []
    | exist _ (c :: r) Hs with Re.inspect (span (λ x, negb (isspace U x)) r) := {
        | exist _ (w, rest) Hw => (c :: w) :: split rest } }.
Proof.
  pose proof (span_snd_length (isspace U) s) as H1.
  pose proof (span_snd_length (λ x, negb (isspace U x)) r) as H2.
  unfold lstrip in Hs. rewrite Hs in H1. rewrite Hw in H2. simpl in *. lia.
Qed.

(** Lines 182-186 (and 149-151 for the description of the model): line
    breaks become spaces, runs of white space one space, and a double
    quote gets a backslash. *)
Definition sanitize (text : str) : str :=
  let text := replace 13 (py " ") (replace 10 (py " ") text) in
  let text := join (py " ") (split text) in
  replace 34 [92; 34] text.

(** [c and c != '未選択'] for an optional role column *)
Definition chosen (c : option str) : option str :=
  match c with
  | Some c =>
      if negb (bool_decide (c = [])) && negb (bool_decide (c = py "未選択"))
      then Some c else None
  | None => None
  end.

(** The second line of the models.yml entry. *)
Definition model_description_line (model_name model_description : str) : str :=
  if negb (bool_decide (model_description = []))
     && negb (bool_decide (strip U model_description = []))
  then py "    description: " ++ dq ++ sanitize (strip U model_description) ++ dq
  else py "    description: " ++ dq ++ model_name ++ py "のテーブル定義" ++ dq.

(** What one optional role column contributes to [description_parts] for
    a row; [j] is the position of the column when it is chosen. *)
Definition description_part (j : option nat) (row : list cell) : list str :=
  match j with
  | Some j =>
      if notna (at_col j row) then
        let v := strip U (py_str (at_col j row)) in
        if negb (bool_decide (v = [])) && negb (bool_decide (v = py "nan"))
        then [v] else []
      else []
  | None => []
  end.

(** The lines appended for one row with a usable name. *)
Definition column_entry (col_name : str) (description_parts : list str) : list str :=
  [ py "      - name: " ++ col_name;
    match description_parts with
    | [] => py "        description: " ++ dq ++ col_name ++ dq
    | first :: _ =>
        let description_text :=
          if (1 <? length description_parts)%nat
          then join (py ": ") description_parts else first in
        py "        description: " ++ dq ++ sanitize description_text ++ dq
    end;
    py "        # data_tests:";
    py "        #   - not_null" ] ++
  (if contains (py "id") (lower U col_name) || contains (py "key") (lower U col_name)
   then [py "        #   - unique"] else []).

(** The third loop over [df_clean.iterrows()]; [p] is the position of the
    physical-name column, [l] and [d] those of the logical-name and
    description columns when they are chosen. *)
Fixpoint yml_columns (p : nat) (l d : option nat) (rws : list (list cell)) : list str :=
  match rws with
  | [] => []
  | row :: rest =>
      let col_name := strip U (py_str (at_col p row)) in
      if negb (bool_decide (col_name = [])) && negb (bool_decide (col_name = py "nan"))
      then column_entry col_name (description_part l row ++ description_part d row)
             ++ yml_columns p l d rest
      else yml_columns p l d rest
  end.

Definition yml_header (model_name model_description : str) : list str :=
  [ py "  - name: " ++ model_name;
    model_description_line model_name model_description;
    py "    columns:" ].

(** Position of an optional role column: [None] when it is chosen and
    not a label of the sheet. *)
Definition role_index (df : DataFrame) (c : option str) : option (option nat) :=
  match c with
  | Some c => Some <$> col_index df c
  | None => Some None
  end.

(** The models.yml text of [generate_dbt_sql_with_mapping] (the second
    component of its result), for role columns that are distinct labels.
    [Ok None] is [schema_yml = None]; [df_filtered[cols_to_use]] raises
    [KeyError] for a role column that is not a label of the sheet. *)
Definition schema_yml (df : DataFrame) (model_name model_description : str)
    (physical_col type_col : str) (logical_col desc_col : option str)
    (include_comments : bool) (selected_rows : option (list bool))
    : result (option str) :=
  if bool_decide (physical_col = []) || bool_decide (type_col = []) then Ok None
  else
    match col_index df physical_col, col_index df type_col,
          role_index df (chosen logical_col), role_index df (chosen desc_col) with
    | Some p, Some _, Some l, Some d =>
        if include_comments
           && (bool_decide (is_Some (chosen logical_col))
               || bool_decide (is_Some (chosen desc_col)))
        then
          let yml_lines :=
            yml_header model_name model_description
              ++ yml_columns p l d (clean_rows p df selected_rows) in
          if (3 <? length yml_lines)%nat then Ok (Some (join nl yml_lines)) else Ok None
        else Ok None
    | _, _, _, _ => Raise KeyError
    end.

(** *** auto_detect_columns *)

(** The dictionary [detected]. *)
Record Detected := {
  physical : option str;
  type : option str;
  logical : option str;
  desc : option str
}.

Definition physical_keywords : list str :=
  [py "物理名"; py "物理"; py "カラム名"; py "physical"; py "column_name"; py "field"].
Definition type_keywords : list str :=
  [py "データ型"; py "データタイプ"; py "型"; py "type"; py "datatype"].
Definition logical_keywords : list str :=
  [py "論理名"; py "項目名"; py "項目"; py "logical"; py "item"; py "name"].
Definition desc_keywords : list str :=
  [py "説明"; py "備考"; py "コメント"; py "description"; py "comment"; py "remarks";
   py "note"].

(** [any(keyword in col_str for keyword in keywords)] *)
Definition any_in (keywords : list str) (col_str : str) : bool :=
  existsb (λ keyword, contains keyword col_str) keywords.

(** The body of the loop over [df.columns]. *)
Definition detect (detected : Detected) (col : str) : Detected :=
  let col_str := lower U (strip U col) in
  if any_in physical_keywords col_str then
    {| physical := Some col; type := type detected;
       logical := logical detected; desc := desc detected |}
  else if any_in type_keywords col_str then
    {| physical := physical detected; type := Some col;
       logical := logical detected; desc := desc detected |}
  else if any_in logical_keywords col_str then
    {| physical := physical detected; type := type detected;
       logical := Some col; desc := desc detected |}
  else if any_in desc_keywords col_str then
    {| physical := physical detected; type := type detected;
       logical := logical detected; desc := Some col |}
  else detected.

Definition auto_detect_columns (df : DataFrame) : Detected :=
  foldl detect {| physical := None; type := None; logical := None; desc := None |}
        (columns df).

(** The kind of keyword a label is taken for: the first of the four
    lists, in the order of the tests, with a keyword in the label. *)
Inductive role := Physical | TypeRole | Logical | Desc.

Definition role_of (col : str) : option role :=
  let col_str := lower U (strip U col) in
  if any_in physical_keywords col_str then Some Physical
  else if any_in type_keywords col_str then Some TypeRole
  else if any_in logical_keywords col_str then Some Logical
  else if any_in desc_keywords col_str then Some Desc
  else None.

Definition get (detected : Detected) (r : role) : option str :=
  match r with
  | Physical => physical detected
  | TypeRole => type detected
  | Logical => logical detected
  | Desc => desc detected
  end.

End WithUnicode.

#[global] Instance role_eq_dec : EqDecision role.
Proof. solve_decision. Defined.

End DbtTrsGeneratorMore.

(** A design sheet with the two optional columns. *)

Module SheetExample.

Definition design_sheet : DataFrame :=
  {| columns := [py "物理名"; py "データ型"; py "論理名"; py "備考"];
     rows := [ [Str (py "customer_id"); Str (py "NUMBER(10)"); Str (py "顧客ID"); NaN];
               [NaN; Str (py "VARCHAR"); Str (py "空行"); NaN];
               [Str (py "gender"); Str (py "文字列"); Str (py "性別");
                Str (py "男 / 女" ++ [10] ++ py "  その他は 9")];
               [Str (py "memo"); NaN; NaN; NaN] ] |}.

End SheetExample.

(** * Properties *)

(** ** Sequence helpers *)

Section SeqFacts.
Context {A : Type} `{EqDecision A}.
Implicit Types s p needle hay : list A.

Lemma startswith_spec s p : startswith s p = true ↔ ∃ b, s = p ++ b.
Proof.
  revert s. induction p as [|a p IH]; intros s; simpl.
  - split; [intros _; by exists s|done].
  - destruct s as [|c s].
    + split; [done|]. intros [b Hb]. discriminate.
    + rewrite andb_true_iff, bool_decide_eq_true, IH. split.
      * intros [-> [b ->]]. eauto.
      * intros [b [= -> ->]]. eauto.
Qed.


Lemma span_app (f : A → bool) s : fst (span f s) ++ snd (span f s) = s.
Proof.
  induction s as [|c s IH]; simpl; [done|].
  destruct (f c); [|done]. destruct (span f s). simpl in *. by f_equal.
Qed.

End SeqFacts.

(** ** The type normaliser and the SQL generator *)

Section GeneratorFacts.
Import DbtTrsGenerator Spec Examples.








(** What [match_sized] accepts is the shape the pattern describes: a
    non-empty run of capital letters, a parenthesised non-empty run of
    digits, and anything after it. *)
Lemma span_Forall {A} (f : A → bool) (s : list A) :
  Forall (λ c, f c = true) (fst (span f s)).
Proof.
  induction s as [|c s IH]; simpl; [constructor|].
  destruct (f c) eqn:E; [|constructor]. destruct (span f s). simpl in *.
  by constructor.
Qed.

Lemma match_sized_shape U s letters digits :
  match_sized U s = Some (letters, digits) →
  ∃ rest, s = letters ++ py "(" ++ digits ++ py ")" ++ rest ∧
          letters ≠ [] ∧ Forall (λ c, is_AZ c = true) letters ∧
          digits ≠ [] ∧ Forall (λ c, isdecimal U c = true) digits.
Proof.
  unfold match_sized. pose proof (span_app is_AZ s) as Hs.
  pose proof (span_Forall is_AZ s) as Hl.
  destruct (span is_AZ s) as [l r1]. simpl in *.
  destruct l as [|l0 l]; [done|]. destruct r1 as [|c r2]; [done|].
  destruct (decide (c = 40)) as [->|Hc]; cycle 1.
  { destruct c as [|q]; [done|]. do 6 (destruct q as [q|q|]; try done). }
  pose proof (span_app (isdecimal U) r2) as Hr.
  pose proof (span_Forall (isdecimal U) r2) as Hd.
  destruct (span (isdecimal U) r2) as [d r3]. simpl in *.
  destruct d as [|d0 d]; [done|]. destruct r3 as [|c' r4]; [done|].
  destruct (decide (c' = 41)) as [->|Hc']; cycle 1.
  { destruct c' as [|q]; [done|]. do 6 (destruct q as [q|q|]; try done). }
  intros [= <- <-]. exists r4. subst s r2. repeat split; try done; reflexivity.
Qed.

(** C8: for every declared type whose upper-cased, trimmed form matches
    the pattern LETTERS(DIGITS), the normaliser returns [varchar(digits)]
    when the letters are VARCHAR or CHAR, and [number(digits)] when they are
    NUMBER, DECIMAL or NUMERIC. *)
Theorem C8_sized_types (U : Unicode) (excel_type letters digits : str) :
  excel_type ≠ [] →
  match_sized U (strip U (upper U excel_type)) = Some (letters, digits) →
  (letters = py "VARCHAR" ∨ letters = py "CHAR" →
   convert_excel_type_to_snowflake U excel_type
   = py "varchar(" ++ digits ++ py ")") ∧
  (letters = py "NUMBER" ∨ letters = py "DECIMAL" ∨ letters = py "NUMERIC" →
   convert_excel_type_to_snowflake U excel_type
   = py "number(" ++ digits ++ py ")").
Proof.
  intros Hne Hm. unfold convert_excel_type_to_snowflake.
  destruct excel_type as [|c0 x]; [done|]. rewrite Hm. simpl.
  split.
  - intros [-> | ->]; reflexivity.
  - intros [-> | [-> | ->]]; reflexivity.
Qed.

(** The three types named by the specification. *)
Lemma C8_sized_types_witness :
  convert_excel_type_to_snowflake basic_latin (py "VARCHAR(10)") = py "varchar(10)" ∧
  convert_excel_type_to_snowflake basic_latin (py "CHAR(5)") = py "varchar(5)" ∧
  convert_excel_type_to_snowflake basic_latin (py "NUMBER(3)") = py "number(3)".
Proof.
  split; [|split].
  - apply (C8_sized_types basic_latin (py "VARCHAR(10)") (py "VARCHAR") (py "10")).
    + discriminate.
    + reflexivity.
    + left; reflexivity.
  - apply (C8_sized_types basic_latin (py "CHAR(5)") (py "CHAR") (py "5")).
    + discriminate.
    + reflexivity.
    + right; reflexivity.
  - apply (C8_sized_types basic_latin (py "NUMBER(3)") (py "NUMBER") (py "3")).
    + discriminate.
    + reflexivity.
    + left; reflexivity.
Defined.






(** The keywords ["TIME"] and ["DATETIME"] never get the targets the
    table gives them: ["TIME"] is contained in the earlier keyword
    ["DATETIME"], and ["DATETIME"] contains the earlier keyword
    ["DATE"]. *)
Example shadowed_keywords :
  (py "TIME", py "time") ∈ type_mapping ∧
  convert_excel_type_to_snowflake basic_latin (py "TIME") = py "timestamp" ∧
  (py "DATETIME", py "timestamp") ∈ type_mapping ∧
  convert_excel_type_to_snowflake basic_latin (py "DATETIME") = py "date".
Proof.
  repeat split; try reflexivity.
  - apply (bool_decide_unpack _). vm_compute. exact I.
  - apply (bool_decide_unpack _). vm_compute. exact I.
Qed.

(** C7: for the rows id/INT, blank/VARCHAR, gender/NUMBER with all three
    rows included, the generator keeps two columns, the blank name taking
    no slot: the extraction stage reads [c1] as [id] and [c2] as [gender],
    and the selection stage emits [id] and, for [gender], the case
    expression null -> 0, '男' -> 1, '女' -> 2, else 9. *)
Theorem C7_example_sql :
  let kept := clean_rows 0 example_rows (Some [true; true; true]) in
  extraction_columns basic_latin 0 1 kept 1
  = [ py "            nullif(value:c1, '')::number as id";
      py "            nullif(value:c2, '')::number as gender" ] ∧
  select_columns basic_latin 0 kept
  = [ py "    id";
      join nl [ py "    case";
                py "        when gender is null";
                py "        then 0";
                py "        when gender = '男'";
                py "        then 1";
                py "        when gender = '女'";
                py "        then 2";
                py "        else 9";
                py "    end as gender" ] ] ∧
  generate_dbt_sql_with_mapping basic_latin example_rows (py "test")
    (py "customer_master") (py "name") (py "type") (Some [true; true; true])
  = Ok (Some example_sql).
Proof. vm_compute. repeat split; reflexivity. Qed.

End GeneratorFacts.

(** ** The masking tool *)

Section MaskingFacts.
Import Re DataMasking Spec Examples.

(** *** The partial mask *)

Lemma times_star n : times star n = replicate (Z.to_nat n) 42.
Proof.
  unfold times, star. generalize (Z.to_nat n) as k.
  induction k as [|k IH]; simpl; [done|]. by f_equal.
Qed.

(** With at least one character kept at the end the lambda is the partial
    mask of the specification. *)
Lemma keep_head_tail_partial_mask (head tail : Z) (x : str) :
  (0 ≤ head)%Z → (1 ≤ tail)%Z →
  keep_head_tail head tail x = partial_mask (Z.to_nat head) (Z.to_nat tail) x.
Proof.
  intros Hh Ht. unfold keep_head_tail, partial_mask.
  destruct x as [|c x]; [by rewrite take_nil, drop_nil|].
  set (y := c :: x). rewrite times_star.
  unfold slice_to, slice_from, slice_bound.
  destruct (head <? 0)%Z eqn:E1; [lia|]. destruct (- tail <? 0)%Z eqn:E2; [|lia].
  f_equal; [|f_equal].
  - destruct (decide (Z.to_nat head ≤ length y)%nat).
    + f_equal. lia.
    + rewrite !take_ge by lia. done.
  - f_equal. lia.
  - f_equal. lia.
Qed.

Example keep_head_tail_2_2 :
  keep_head_tail 2 2 (py "1234567890") = py "12******90".
Proof. reflexivity. Qed.

(** With nothing to keep at the end the slice [x[-0:]] is the whole value. *)
Lemma keep_head_tail_tail_zero (head : Z) (x : str) :
  (0 ≤ head)%Z →
  keep_head_tail head 0 x
  = take (Z.to_nat head) x ++ replicate (length x - Z.to_nat head) 42 ++ x.
Proof.
  intros Hh. unfold keep_head_tail. destruct x as [|c x]; [by rewrite take_nil|].
  set (y := c :: x). rewrite times_star.
  unfold slice_to, slice_from, slice_bound.
  destruct (head <? 0)%Z eqn:E1; [lia|].
  f_equal; [|f_equal].
  - destruct (decide (Z.to_nat head ≤ length y)%nat).
    + f_equal. lia.
    + rewrite !take_ge by lia. done.
  - f_equal. lia.
Qed.

(** C1 at [tail_keep = 0]: the program appends the whole value after the
    mask, where the partial mask of the specification appends nothing;
    [mask_keep_head_tail] and the dispatcher both do so. *)
Theorem C1_tail_zero_appends_value :
  keep_head_tail 2 0 (py "1234567890") = py "12********1234567890" ∧
  partial_mask 2 0 (py "1234567890") = py "12********" ∧
  mask_keep_head_tail (mini_runtime NaN) [Str (py "1234567890")] 2 0
  = [Str (py "12********1234567890")] ∧
  _apply_masking (mini_runtime NaN)
    {| cols := [py "tel"]; meth := KeepHeadTail; head_n := 2; tail_n := 0;
       salt := []; regex_pat := []; preset := None |}
    ∅ {| columns := [py "tel"]; rows := [[Str (py "1234567890")]] |}
  = Ok (∅, {| columns := [py "tel"];
              rows := [[Str (py "12********1234567890")]] |}).
Proof. vm_compute. repeat split; reflexivity. Qed.

Example sha256_hash_abc :
  sha256_hash (py "bc") (py "a")
  = py "ba7816bf8f01cfea414140de5dae2223b00361a396177a9cb410ff61f20015ad".
Proof. vm_compute. reflexivity. Qed.

Example credit_card_preset :
  PRESETS (mini_runtime NaN) CreditCard (py "4111-1111-1111-1234")
  = py "************1234".
Proof. vm_compute. reflexivity. Qed.

(** *** The name of the output file *)

(** C4 at [data.csv]: the suffix the program appends is [_maked]. *)
Theorem C4_output_name_suffix :
  out_name basic_latin (py "/srv/in/data.csv") false = py "data_maked.csv" ∧
  out_name basic_latin (py "/srv/in/data.csv") false ≠ py "data_masked.csv" ∧
  out_name basic_latin (py "/srv/in/data.tsv.gz") true = py "data_maked.tsv" ∧
  out_name basic_latin (py "/srv/in/data.csv") true = py "data_maked.csv.gz".
Proof. vm_compute. repeat split; discriminate. Qed.

(** *** The regex mask *)

Lemma sub_from_stars_length re subject pos adv :
  (pos ≤ length subject)%nat →
  length (sub_from re (λ m, times star (Z.of_nat (length (group0 subject m))))
            subject pos adv)
  = (length subject - pos)%nat.
Proof.
  remember (λ m, times star (Z.of_nat (length (group0 subject m)))) as repl eqn:Hrepl.
  funelim (sub_from re repl subject pos adv); intros Hpos.
  - destruct (search_admissible _ _ _ _ _ Hm) as (H1 & H2 & H3 & H4).
    rewrite !length_app, H by (done || lia).
    rewrite times_star, length_replicate, length_take, length_drop.
    unfold group0. rewrite length_take, length_drop. lia.
  - by rewrite length_drop.
Qed.

Lemma regex_stars_length reg x : length (regex_stars reg x) = length x.
Proof.
  unfold regex_stars, regex_repl. destruct x as [|c x]; [done|].
  unfold sub. rewrite sub_from_stars_length by lia. lia.
Qed.

(** C10: for every pattern that compiles and every cell text, the regex
    mask returns a text of the same length; so do [mask_regex_sub], with
    its default replacement character, on a series of texts, and the regex
    branch of the dispatcher. *)
Theorem C10_regex_mask_preserves_length (R : Runtime) (pattern : str) (reg : regex) :
  re_compile R pattern = Some reg →
  (∀ x, length (regex_stars reg x) = length x) ∧
  (∀ s : list str, ∃ out,
     mask_regex_sub R (Str <$> s) pattern star = Ok (Str <$> out) ∧
     length <$> out = length <$> s) ∧
  (∀ P tm (s : list str),
     meth P = RegexMask → regex_pat P = pattern → pattern ≠ [] →
     ∃ out, mask_column R P tm s = Ok (tm, Some out) ∧
            length <$> out = length <$> s).
Proof.
  intros Hc. split; [|split].
  - apply regex_stars_length.
  - intros s. exists (regex_stars reg <$> s). split.
    + unfold mask_regex_sub. rewrite Hc.
      induction s as [|x s IH]; csimpl; [done|]. by rewrite IH.
    + rewrite <- !list_fmap_compose. apply list_fmap_ext. intros _ x _.
      apply regex_stars_length.
  - intros P tm s Hm Hp Hne. exists (regex_stars reg <$> s). split.
    + unfold mask_column. rewrite Hm, Hp, Hc. by destruct pattern.
    + rewrite <- !list_fmap_compose. apply list_fmap_ext. intros _ x _.
      apply regex_stars_length.
Qed.

Lemma C10_regex_mask_preserves_length_witness :
  length (regex_stars (MiniRe.compiled MiniRe.digits_run) (py "tel 03-1234"))
  = length (py "tel 03-1234").
Proof.
  apply (C10_regex_mask_preserves_length (mini_runtime NaN) (py "\d+")
           (MiniRe.compiled MiniRe.digits_run)).
  reflexivity.
Defined.

Example regex_stars_digits :
  regex_stars (MiniRe.compiled MiniRe.digits_run) (py "tel 03-1234") = py "tel **-****".
Proof. vm_compute. reflexivity. Qed.

(** *** The dispatcher, column by column *)

Lemma col_index_Some chunk c j :
  col_index chunk c = Some j → columns chunk !! j = Some c.
Proof.
  unfold col_index. destruct (list_find _ _) as [[j' l]|] eqn:E; [|done].
  intros [= <-]. apply list_find_Some in E as (H1 & -> & _). done.
Qed.

Lemma col_index_None chunk c : col_index chunk c = None ↔ c ∉ columns chunk.
Proof.
  unfold col_index. destruct (list_find _ _) as [[j' l]|] eqn:E; simpl.
  - apply list_find_Some in E as (H1 & -> & _). split; [done|].
    intros Hn. destruct Hn. by eapply list_elem_of_lookup_2.
  - split; [|done]. intros _ Hin. apply list_find_None in E.
    rewrite Forall_forall in E. by apply (E c).
Qed.

Lemma tokenize_loop_length prefix tm n vs :
  length (snd (tokenize_loop prefix tm n vs)) = length vs.
Proof.
  revert tm n. induction vs as [|v vs IH]; intros tm n; simpl; [done|].
  case_bool_decide.
  - specialize (IH tm n). destruct (tokenize_loop prefix tm n vs). simpl in *. lia.
  - destruct (tm !! v).
    + specialize (IH tm n). destruct (tokenize_loop prefix tm n vs). simpl in *. lia.
    + specialize (IH (<[v:=token prefix n]> tm) (n + 1)%nat).
      destruct (tokenize_loop prefix _ _ vs). simpl in *. lia.
Qed.

Lemma tokenize_loop_empty prefix tm n vs i :
  vs !! i = Some [] → snd (tokenize_loop prefix tm n vs) !! i = Some [].
Proof.
  revert tm n i. induction vs as [|v vs IH]; intros tm n i; simpl; [done|].
  destruct i as [|i]; simpl.
  - intros [= ->]. rewrite bool_decide_eq_true_2 by done.
    by destruct (tokenize_loop prefix tm n vs).
  - intros Hi. case_bool_decide.
    + specialize (IH tm n i Hi). by destruct (tokenize_loop prefix tm n vs).
    + destruct (tm !! v).
      * specialize (IH tm n i Hi). by destruct (tokenize_loop prefix tm n vs).
      * specialize (IH (<[v:=token prefix n]> tm) (n + 1)%nat i Hi).
        by destruct (tokenize_loop prefix _ _ vs).
Qed.

(** Every branch that assigns the column gives it as many cells as it had,
    and leaves an empty text empty. *)
Lemma mask_column_length R P tm s tm' new :
  mask_column R P tm s = Ok (tm', Some new) → length new = length s.
Proof.
  unfold mask_column. destruct (meth P).
  - intros [= <- <-]. by rewrite length_fmap.
  - intros [= <- <-]. by rewrite length_fmap.
  - intros [= <- <-]. by rewrite length_fmap.
  - unfold tokenize_values.
    pose proof (tokenize_loop_length (py "TKN_") tm (size tm + 1) s) as Hl.
    destruct (tokenize_loop _ _ _ _). intros [= <- <-]. done.
  - destruct (regex_pat P); [done|]. destruct (re_compile R _); [|done].
    intros [= <- <-]. by rewrite length_fmap.
  - destruct (preset P); [|done]. intros [= <- <-]. by rewrite length_fmap.
  - done.
Qed.

Lemma mask_column_empty R P tm s tm' new i :
  mask_column R P tm s = Ok (tm', Some new) → s !! i = Some [] → new !! i = Some [].
Proof.
  unfold mask_column. destruct (meth P).
  - intros [= <- <-] Hi. by rewrite list_lookup_fmap, Hi.
  - intros [= <- <-] Hi. by rewrite list_lookup_fmap, Hi.
  - intros [= <- <-] Hi. by rewrite list_lookup_fmap, Hi.
  - unfold tokenize_values. intros H Hi.
    pose proof (tokenize_loop_empty (py "TKN_") tm (size tm + 1) s i Hi) as Hl.
    destruct (tokenize_loop _ _ _ _). by injection H as <- <-.
  - destruct (regex_pat P); [done|]. destruct (re_compile R _); [|done].
    intros [= <- <-] Hi. by rewrite list_lookup_fmap, Hi.
  - destruct (preset P); [|done]. intros [= <- <-] Hi.
    by rewrite list_lookup_fmap, Hi.
  - done.
Qed.

Lemma mask_column_assigns R P tm s tm' :
  assigns R P → mask_column R P tm s ≠ Ok (tm', None).
Proof.
  unfold assigns, mask_column. destruct (meth P); try done.
  - by destruct (tokenize_values _ _ _).
  - intros [Hne [reg ->]]. by destruct (regex_pat P).
  - by destruct (preset P).
Qed.

(** The cells of a table after the assignment of column [j0]. *)
Lemma cell_at_set_col cols0 rws j0 new i j :
  length new = length rws →
  cell_at {| columns := cols0; rows := set_col j0 new rws |} i j =
  if decide (j = j0)
  then cell_at {| columns := cols0; rows := rws |} i j ≫= λ _, Str <$> new !! i
  else cell_at {| columns := cols0; rows := rws |} i j.
Proof.
  intros Hlen. unfold cell_at, set_col. simpl. rewrite lookup_zip_with.
  destruct (rws !! i) as [row|] eqn:Hrow; simpl.
  - destruct (new !! i) as [v|] eqn:Hv; simpl.
    + case_decide as Hj.
      * subst j. destruct (row !! j0) eqn:Hc; simpl.
        -- apply list_lookup_insert_eq. by eapply lookup_lt_Some.
        -- apply lookup_ge_None. rewrite length_insert. by apply lookup_ge_None.
      * by apply list_lookup_insert_ne.
    + apply lookup_ge_None in Hv. apply lookup_lt_Some in Hrow. lia.
  - by case_decide.
Qed.

Lemma texts_lookup R j0 rws i row :
  rws !! i = Some row →
  (as_text R <$> get_col j0 rws) !! i = Some (as_text R (at_col j0 row)).
Proof.
  intros Hrow. unfold get_col. by rewrite !list_lookup_fmap, Hrow.
Qed.

Lemma texts_length R j0 rws : length (as_text R <$> get_col j0 rws) = length rws.
Proof. unfold get_col. by rewrite !length_fmap. Qed.

(** The dispatcher keeps the labels and the number of rows, and touches
    no column whose label is not a target. *)
Lemma apply_cols_frame R P cs tm chunk tm' chunk' :
  apply_cols R P cs tm chunk = Ok (tm', chunk') →
  columns chunk' = columns chunk ∧
  length (rows chunk') = length (rows chunk) ∧
  ∀ i j l, columns chunk !! j = Some l → l ∉ cs →
           cell_at chunk' i j = cell_at chunk i j.
Proof.
  revert tm chunk. induction cs as [|c cs IH]; intros tm chunk; simpl.
  - intros [= <- <-]. done.
  - destruct (col_index chunk c) as [j0|] eqn:Hj0.
    + destruct (mask_column R P tm _) as [[tm1 [new|]]|e] eqn:Hm; [| |done].
      * intros H. apply IH in H as (Hc & Hl & Hf). simpl in *.
        pose proof (mask_column_length _ _ _ _ _ _ Hm) as Hlen.
        rewrite texts_length in Hlen.
        split; [done|]. split.
        { rewrite Hl. unfold set_col. rewrite length_zip_with. lia. }
        intros i j l Hjl Hl'. apply not_elem_of_cons in Hl' as [Hne Hl'].
        rewrite (Hf i j l Hjl Hl'), cell_at_set_col by done.
        rewrite decide_False; [by destruct chunk|].
        intros ->. apply col_index_Some in Hj0. congruence.
      * intros H. apply IH in H as (Hc & Hl & Hf).
        split; [done|]. split; [done|].
        intros i j l Hjl Hl'. apply not_elem_of_cons in Hl' as [Hne Hl'].
        by apply (Hf i j l).
    + intros H. apply IH in H as (Hc & Hl & Hf).
      split; [done|]. split; [done|].
      intros i j l Hjl Hl'. apply not_elem_of_cons in Hl' as [Hne Hl'].
      by apply (Hf i j l).
Qed.

(** A target that is not a label of the table is passed over. *)
Lemma apply_cols_absent R P l1 c l2 tm chunk :
  c ∉ columns chunk →
  apply_cols R P (l1 ++ c :: l2) tm chunk = apply_cols R P (l1 ++ l2) tm chunk.
Proof.
  intros Hc. revert tm chunk Hc.
  induction l1 as [|c1 l1 IH]; intros tm chunk Hc; simpl.
  - apply col_index_None in Hc. by rewrite Hc.
  - destruct (col_index chunk c1); [|by apply IH].
    destruct (mask_column R P tm _) as [[tm1 [new|]]|e]; [| |done].
    + by apply IH.
    + by apply IH.
Qed.

Lemma apply_cols_all_absent R P cs tm chunk :
  (∀ c, c ∈ cs → c ∉ columns chunk) → apply_cols R P cs tm chunk = Ok (tm, chunk).
Proof.
  induction cs as [|c cs IH]; intros Hc; simpl; [done|].
  assert (col_index chunk c = None) as ->.
  { apply col_index_None, Hc. left. }
  apply IH. intros c' Hc'. apply Hc. by right.
Qed.

(** The list of targets is consulted by the loop only. *)
Lemma apply_cols_with_cols R P cs0 cs tm chunk :
  apply_cols R (with_cols P cs0) cs tm chunk = apply_cols R P cs tm chunk.
Proof.
  revert tm chunk. induction cs as [|c cs IH]; intros tm chunk; simpl; [done|].
  destruct (col_index chunk c); [|done].
  change (mask_column R (with_cols P cs0)) with (mask_column R P).
  destruct (mask_column R P tm _) as [[tm1 [new|]]|e]; done.
Qed.

(** C9: a target column that is absent from the table is skipped: the
    outcome (result, error and token map included) is the one obtained
    without it in the policy, a policy whose targets are all absent returns
    the table as it is, and whenever the dispatcher returns, the labels,
    the number of rows and every cell of a column that is not a target are
    those of the input. *)
Theorem C9_absent_and_untargeted_columns (R : Runtime) (P : Policy)
    (tm : token_map) (chunk : DataFrame) :
  (∀ l1 c l2, c ∉ columns chunk →
     _apply_masking R (with_cols P (l1 ++ c :: l2)) tm chunk
     = _apply_masking R (with_cols P (l1 ++ l2)) tm chunk) ∧
  ((∀ c, c ∈ cols P → c ∉ columns chunk) →
     _apply_masking R P tm chunk = Ok (tm, chunk)) ∧
  (∀ tm' chunk', _apply_masking R P tm chunk = Ok (tm', chunk') →
     columns chunk' = columns chunk ∧
     length (rows chunk') = length (rows chunk) ∧
     ∀ i j l, columns chunk !! j = Some l → l ∉ cols P →
              cell_at chunk' i j = cell_at chunk i j).
Proof.
  split; [|split].
  - intros l1 c l2 Hc. unfold _apply_masking. simpl.
    rewrite !apply_cols_with_cols. by apply apply_cols_absent.
  - apply apply_cols_all_absent.
  - intros tm' chunk'. apply apply_cols_frame.
Qed.

Lemma C9_absent_and_untargeted_columns_witness :
  _apply_masking (mini_runtime NaN) (demo_policy FullMask [py "name"; py "phone"])
    ∅ demo_table
  = _apply_masking (mini_runtime NaN) (demo_policy FullMask [py "name"]) ∅ demo_table ∧
  _apply_masking (mini_runtime NaN) (demo_policy FullMask [py "phone"]) ∅ demo_table
  = Ok (∅, demo_table) ∧
  cell_at {| columns := columns demo_table;
             rows := [ [Str (py "1"); Str (py "****"); Str (py "")];
                       [Str (py "2"); Str (py "****"); NaN] ] |} 1 0
  = cell_at demo_table 1 0.
Proof.
  split; [|split].
  - apply (proj1 (C9_absent_and_untargeted_columns (mini_runtime NaN)
                    (demo_policy FullMask []) ∅ demo_table) [py "name"] (py "phone") []).
    apply (bool_decide_unpack _). vm_compute. exact I.
  - apply (proj1 (proj2 (C9_absent_and_untargeted_columns (mini_runtime NaN)
                    (demo_policy FullMask [py "phone"]) ∅ demo_table))).
    intros c Hc. apply list_elem_of_singleton in Hc as ->.
    apply (bool_decide_unpack _). vm_compute. exact I.
  - apply (proj2 (proj2 (proj2 (proj2 (C9_absent_and_untargeted_columns
                    (mini_runtime NaN) (demo_policy FullMask [py "name"]) ∅ demo_table))
                    ∅ _ eq_refl)) 1%nat 0%nat (py "id")).
    + reflexivity.
    + apply (bool_decide_unpack _). vm_compute. exact I.
Defined.

(** *** Empty and missing cells *)

(** Once a cell holds the empty text every later step of the dispatcher
    leaves it so. *)
Lemma apply_cols_keeps_empty R P cs tm chunk tm' chunk' i j :
  apply_cols R P cs tm chunk = Ok (tm', chunk') →
  cell_at chunk i j = Some (Str []) → cell_at chunk' i j = Some (Str []).
Proof.
  revert tm chunk. induction cs as [|c cs IH]; intros tm chunk; simpl.
  - by intros [= <- <-].
  - destruct (col_index chunk c) as [j0|] eqn:Hj0; [|by apply IH].
    destruct (mask_column R P tm _) as [[tm1 [new|]]|e] eqn:Hm; [|by apply IH|done].
    intros H Hcell. apply IH in H; [done|].
    pose proof (mask_column_length _ _ _ _ _ _ Hm) as Hlen.
    rewrite texts_length in Hlen. rewrite cell_at_set_col by done.
    case_decide as Hj; [|by destruct chunk]. subst j0.
    replace {| columns := columns chunk; rows := rows chunk |} with chunk
      by by destruct chunk.
    rewrite Hcell. simpl. unfold cell_at in Hcell.
    destruct (rows chunk !! i) as [row|] eqn:Hrow; [|done]. simpl in Hcell.
    erewrite (mask_column_empty _ _ _ _ _ _ i Hm); [done|].
    erewrite texts_lookup by done. unfold at_col. by rewrite Hcell.
Qed.

(** A cell of a target column whose text is empty, be it the empty text or
    a missing value that [astype(str)] leaves missing, holds the empty text
    once the column has been assigned. *)
Lemma apply_cols_blank R P cs tm chunk tm' chunk' i j c x :
  assigns R P → as_text R x = [] →
  apply_cols R P cs tm chunk = Ok (tm', chunk') →
  c ∈ cs → col_index chunk c = Some j → cell_at chunk i j = Some x →
  cell_at chunk' i j = Some (Str []).
Proof.
  intros Ha Hx. revert tm chunk. induction cs as [|c0 cs IH]; intros tm chunk; simpl.
  - intros _ Hc. by apply elem_of_nil in Hc.
  - intros H Hc Hj Hcell. destruct (col_index chunk c0) as [j0|] eqn:Hj0.
    + destruct (mask_column R P tm _) as [[tm1 [new|]]|e] eqn:Hm; [| |done].
      * pose proof (mask_column_length _ _ _ _ _ _ Hm) as Hlen.
        rewrite texts_length in Hlen.
        assert (chunk = {| columns := columns chunk; rows := rows chunk |}) as Hch
          by by destruct chunk.
        destruct (decide (j = j0)) as [->|Hne].
        -- eapply apply_cols_keeps_empty; [exact H|].
           rewrite cell_at_set_col, decide_True by done. rewrite <- Hch, Hcell. simpl.
           unfold cell_at in Hcell.
           destruct (rows chunk !! i) as [row|] eqn:Hrow; [|done]. simpl in Hcell.
           erewrite (mask_column_empty _ _ _ _ _ _ i Hm); [done|].
           erewrite texts_lookup by done. unfold at_col. rewrite Hcell. simpl.
           by rewrite Hx.
        -- eapply (IH _ _ H); [| |].
           ++ apply elem_of_cons in Hc as [->|Hc]; [congruence|done].
           ++ done.
           ++ rewrite cell_at_set_col, decide_False by done. by rewrite <- Hch.
      * by apply mask_column_assigns in Hm.
    + eapply (IH _ _ H); [|done|done].
      apply elem_of_cons in Hc as [->|Hc]; [congruence|done].
Qed.

(** C2, as the program has it: whenever the dispatcher returns, a cell
    holding the empty text still holds it, under every method; and a
    missing cell of a target column holds the empty text afterwards
    when [astype(str)] leaves missing values missing and the method
    assigns the column. *)
Theorem C2_empty_and_missing_cells (R : Runtime) (P : Policy) (tm tm' : token_map)
    (chunk chunk' : DataFrame) :
  _apply_masking R P tm chunk = Ok (tm', chunk') →
  (∀ i j, cell_at chunk i j = Some (Str []) → cell_at chunk' i j = Some (Str [])) ∧
  (astype_str_na R = NaN → assigns R P →
   ∀ i j c, c ∈ cols P → col_index chunk c = Some j →
            cell_at chunk i j = Some NaN → cell_at chunk' i j = Some (Str [])).
Proof.
  intros H. split.
  - intros i j. by apply (apply_cols_keeps_empty R P (cols P) tm chunk tm').
  - intros Hna Ha i j c Hc Hj Hcell.
    apply (apply_cols_blank R P (cols P) tm chunk tm' chunk' i j c NaN); try done.
    unfold as_text. simpl. by rewrite Hna.
Qed.

Lemma C2_empty_and_missing_cells_witness :
  let out := {| columns := columns demo_table;
                rows := [ [Str (py "1"); Str (py "alice"); Str (py "")];
                          [Str (py "2"); Str (py "bob"); Str (py "")] ] |} in
  cell_at out 0 2 = Some (Str []) ∧ cell_at out 1 2 = Some (Str []).
Proof.
  intros out.
  destruct (C2_empty_and_missing_cells (mini_runtime NaN)
              (demo_policy Sha256Hash [py "memo"]) ∅ ∅ demo_table out eq_refl)
    as [H1 H2].
  split.
  - apply H1. reflexivity.
  - apply (H2 eq_refl I 1%nat 2%nat (py "memo")).
    + left.
    + reflexivity.
    + reflexivity.
Defined.

(** C2 as the specification words it fails for the regex method without a
    pattern: the column is not assigned and a missing cell stays missing,
    whatever [astype(str)] would have made of it. *)
Lemma C2_counterexample :
  let P := {| cols := [py "memo"]; meth := RegexMask; head_n := 2; tail_n := 2;
              salt := []; regex_pat := []; preset := None |} in
  (_apply_masking (mini_runtime NaN) P ∅ demo_table = Ok (∅, demo_table) ∧
   _apply_masking (mini_runtime (Str (py "nan"))) P ∅ demo_table = Ok (∅, demo_table)) ∧
  cell_at demo_table 1 2 = Some NaN ∧
  cell_at demo_table 1 2 ≠ Some (Str []).
Proof. vm_compute. repeat split; discriminate. Qed.

(** What the full mask makes of a missing cell under the two behaviours of
    [astype(str)]. *)
Example full_mask_missing_cell :
  let P := demo_policy FullMask [py "memo"] in
  (∃ out, _apply_masking (mini_runtime NaN) P ∅ demo_table = Ok (∅, out) ∧
          cell_at out 1 2 = Some (Str [])) ∧
  (∃ out, _apply_masking (mini_runtime (Str (py "nan"))) P ∅ demo_table = Ok (∅, out) ∧
          cell_at out 1 2 = Some (Str (py "****"))).
Proof. split; eexists; split; vm_compute; reflexivity. Qed.

(** *** The token map *)

Lemma uint_chars_inj d d' : uint_chars d = uint_chars d' → d = d'.
Proof.
  revert d'. induction d; intros d'; destruct d'; simpl; try done;
    intros [= H]; f_equal; by apply IHd.
Qed.

Lemma zeros_uint k d :
  replicate k 48 ++ uint_chars d = uint_chars (Nat.iter k Decimal.D0 d).
Proof. induction k as [|k IH]; simpl; [done|]. by rewrite IH. Qed.

Lemma of_uint_zeros k d : Nat.of_uint (Nat.iter k Decimal.D0 d) = Nat.of_uint d.
Proof. induction k as [|k IH]; simpl; [done|]. rewrite <- IH. reflexivity. Qed.

(** Distinct sequence numbers give distinct tokens. *)
Lemma token_inj prefix n m : token prefix n = token prefix m → n = m.
Proof.
  unfold token, zfill, str_of_nat. intros H. apply app_inv_head in H.
  rewrite !zeros_uint in H. apply uint_chars_inj in H.
  apply (f_equal Nat.of_uint) in H.
  by rewrite !of_uint_zeros, !Unsigned.of_to in H.
Qed.

Lemma tokenize_values_cons prefix tm v vs :
  tokenize_values prefix tm (v :: vs) =
  let '(tm1, o) := tokenize_step prefix tm v in
  let '(tm2, os) := tokenize_values prefix tm1 vs in (tm2, o :: os).
Proof.
  unfold tokenize_values, tokenize_step. simpl. case_bool_decide; [done|].
  destruct (tm !! v) eqn:Hv; [done|].
  rewrite map_size_insert_None by done.
  by replace (S (size tm) + 1)%nat with (size tm + 1 + 1)%nat by lia.
Qed.

Lemma tokenize_values_nil prefix tm : tokenize_values prefix tm [] = (tm, []).
Proof. done. Qed.

Lemma tokenize_values_app prefix tm a b :
  tokenize_values prefix tm (a ++ b) =
  let '(tm1, o1) := tokenize_values prefix tm a in
  let '(tm2, o2) := tokenize_values prefix tm1 b in (tm2, o1 ++ o2).
Proof.
  revert tm. induction a as [|v a IH]; intros tm.
  - rewrite tokenize_values_nil. cbn [app]. by destruct (tokenize_values prefix tm b).
  - cbn [app]. rewrite !tokenize_values_cons.
    destruct (tokenize_step prefix tm v) as [tm1 o]. rewrite IH.
    destruct (tokenize_values prefix tm1 a) as [tm2 o1].
    by destruct (tokenize_values prefix tm2 b).
Qed.

Lemma tokenize_step_subseteq prefix tm v : tm ⊆ fst (tokenize_step prefix tm v).
Proof.
  unfold tokenize_step. case_bool_decide; [done|].
  destruct (tm !! v) eqn:Hv; [done|]. simpl. by apply insert_subseteq.
Qed.

Lemma tokenize_step_lookup prefix tm v :
  v ≠ [] →
  fst (tokenize_step prefix tm v) !! v = Some (snd (tokenize_step prefix tm v)).
Proof.
  intros Hv. unfold tokenize_step. rewrite bool_decide_eq_false_2 by done.
  destruct (tm !! v) eqn:E; simpl; [done|]. apply lookup_insert_eq.
Qed.

Lemma tokenize_step_fresh prefix tm v w :
  tm !! w = None → w ≠ v → fst (tokenize_step prefix tm v) !! w = None.
Proof.
  intros Hw Hne. unfold tokenize_step. case_bool_decide; [done|].
  destruct (tm !! v); simpl; [done|]. by rewrite lookup_insert_ne.
Qed.

Lemma tokenize_step_numbered prefix tm v :
  numbered prefix tm → numbered prefix (fst (tokenize_step prefix tm v)).
Proof.
  intros [Hinj Hnum]. unfold tokenize_step. case_bool_decide; [done|].
  destruct (tm !! v) eqn:Hv; [done|]. simpl.
  split.
  - intros v1 v2 t H1 H2.
    destruct (decide (v = v1)) as [E1|N1], (decide (v = v2)) as [E2|N2].
    + congruence.
    + subst v1. rewrite lookup_insert_eq in H1. rewrite lookup_insert_ne in H2 by done.
      injection H1 as <-. apply Hnum in H2 as (n & Hn & Ht).
      apply token_inj in Ht. lia.
    + subst v2. rewrite lookup_insert_eq in H2. rewrite lookup_insert_ne in H1 by done.
      injection H2 as <-. apply Hnum in H1 as (n & Hn & Ht).
      apply token_inj in Ht. lia.
    + rewrite lookup_insert_ne in H1, H2 by done. by eapply Hinj.
  - intros w t. rewrite map_size_insert_None by done.
    destruct (decide (v = w)) as [->|N].
    + rewrite lookup_insert_eq. intros [= <-]. exists (size tm + 1)%nat. split; [lia|done].
    + rewrite lookup_insert_ne by done. intros Hw.
      apply Hnum in Hw as (n & Hn & Ht). exists n. split; [lia|done].
Qed.

Lemma tokenize_values_subseteq prefix tm vs :
  tm ⊆ fst (tokenize_values prefix tm vs).
Proof.
  revert tm. induction vs as [|v vs IH]; intros tm; [done|].
  rewrite tokenize_values_cons.
  pose proof (tokenize_step_subseteq prefix tm v) as H1.
  destruct (tokenize_step prefix tm v) as [tm1 o].
  specialize (IH tm1). destruct (tokenize_values prefix tm1 vs) as [tm2 os].
  simpl in *. by etrans.
Qed.

Lemma tokenize_values_numbered prefix tm vs :
  numbered prefix tm → numbered prefix (fst (tokenize_values prefix tm vs)).
Proof.
  revert tm. induction vs as [|v vs IH]; intros tm Hn; [done|].
  rewrite tokenize_values_cons.
  pose proof (tokenize_step_numbered prefix tm v Hn) as H1.
  destruct (tokenize_step prefix tm v) as [tm1 o].
  specialize (IH tm1 H1). by destruct (tokenize_values prefix tm1 vs) as [tm2 os].
Qed.

(** The token written for a value is the entry of the map for it. *)
Lemma tokenize_values_lookup prefix tm vs i v :
  vs !! i = Some v → v ≠ [] →
  ∃ t, fst (tokenize_values prefix tm vs) !! v = Some t ∧
       snd (tokenize_values prefix tm vs) !! i = Some t.
Proof.
  revert tm i. induction vs as [|v0 vs IH]; intros tm i Hi Hv; [done|].
  rewrite tokenize_values_cons.
  pose proof (tokenize_step_lookup prefix tm v0) as H1.
  destruct (tokenize_step prefix tm v0) as [tm1 o].
  pose proof (tokenize_values_subseteq prefix tm1 vs) as Hsub.
  destruct i as [|i]; simpl in Hi.
  - injection Hi as ->. specialize (H1 Hv). simpl in H1.
    destruct (tokenize_values prefix tm1 vs) as [tm2 os]. simpl in *.
    exists o. split; [|done]. by eapply lookup_weaken.
  - destruct (IH tm1 i Hi Hv) as (t & Ht1 & Ht2).
    destruct (tokenize_values prefix tm1 vs) as [tm2 os]. simpl in *. eauto.
Qed.

Lemma tokenize_values_fresh prefix tm vs w :
  tm !! w = None → w ∉ vs → fst (tokenize_values prefix tm vs) !! w = None.
Proof.
  revert tm. induction vs as [|v vs IH]; intros tm Hw Hin; [done|].
  rewrite tokenize_values_cons. apply not_elem_of_cons in Hin as [Hne Hin].
  pose proof (tokenize_step_fresh prefix tm v w Hw Hne) as H1.
  destruct (tokenize_step prefix tm v) as [tm1 o].
  specialize (IH tm1 H1 Hin). by destruct (tokenize_values prefix tm1 vs).
Qed.

(** A value met for the first time takes the number after the number of
    entries. *)
Lemma tokenize_values_new prefix tm v :
  v ≠ [] → tm !! v = None →
  tokenize_values prefix tm [v] =
  (<[v := token prefix (size tm + 1)]> tm, [token prefix (size tm + 1)]).
Proof.
  intros Hv Hn. rewrite tokenize_values_cons. unfold tokenize_step.
  rewrite bool_decide_eq_false_2 by done. by rewrite Hn.
Qed.

(** Of two values met for the first time, in this order, the first takes
    the smaller number. *)
Lemma tokenize_values_first_seen prefix tm l1 v l2 w l3 :
  v ≠ [] → w ≠ [] → v ≠ w →
  tm !! v = None → tm !! w = None → v ∉ l1 → w ∉ l1 → w ∉ l2 →
  ∃ n m, fst (tokenize_values prefix tm (l1 ++ v :: l2 ++ w :: l3)) !! v
         = Some (token prefix n) ∧
         fst (tokenize_values prefix tm (l1 ++ v :: l2 ++ w :: l3)) !! w
         = Some (token prefix m) ∧ (n < m)%nat.
Proof.
  intros Hv Hw Hvw Hnv Hnw Hv1 Hw1 Hw2.
  rewrite tokenize_values_app.
  pose proof (tokenize_values_fresh prefix tm l1 v Hnv Hv1) as Fv.
  pose proof (tokenize_values_fresh prefix tm l1 w Hnw Hw1) as Fw.
  destruct (tokenize_values prefix tm l1) as [tm1 o1]. simpl in Fv, Fw.
  change (v :: l2 ++ w :: l3) with ([v] ++ l2 ++ [w] ++ l3).
  rewrite tokenize_values_app, (tokenize_values_new prefix tm1 v Hv Fv).
  set (tm2 := <[v:=token prefix (size tm1 + 1)]> tm1).
  assert (tm2 !! w = None) as Fw2 by by (unfold tm2; rewrite lookup_insert_ne).
  rewrite tokenize_values_app.
  pose proof (tokenize_values_fresh prefix tm2 l2 w Fw2 Hw2) as Fw3.
  pose proof (tokenize_values_subseteq prefix tm2 l2) as S23.
  destruct (tokenize_values prefix tm2 l2) as [tm3 o2]. simpl in Fw3, S23.
  rewrite tokenize_values_app, (tokenize_values_new prefix tm3 w Hw Fw3).
  set (tm4 := <[w:=token prefix (size tm3 + 1)]> tm3).
  pose proof (tokenize_values_subseteq prefix tm4 l3) as S45.
  destruct (tokenize_values prefix tm4 l3) as [tm5 o3]. simpl in *.
  exists (size tm1 + 1)%nat, (size tm3 + 1)%nat. split; [|split].
  - eapply lookup_weaken; [|exact S45]. unfold tm4.
    rewrite lookup_insert_ne by done. eapply lookup_weaken; [|exact S23].
    unfold tm2. apply lookup_insert_eq.
  - eapply lookup_weaken; [|exact S45]. unfold tm4. apply lookup_insert_eq.
  - apply map_subseteq_size in S23. unfold tm2 in S23.
    rewrite map_size_insert_None in S23 by done. lia.
Qed.

Lemma numbered_empty prefix : numbered prefix ∅.
Proof. split; intros *; by rewrite lookup_empty. Qed.

Lemma import_into_empty imported : import_token_map ∅ imported = imported.
Proof. unfold import_token_map. apply (right_id_L ∅ (∪)). Qed.

Lemma import_precedence tm imported k :
  import_token_map tm imported !! k =
  match imported !! k with
  | Some t => Some t
  | None => tm !! k
  end.
Proof.
  unfold import_token_map. destruct (imported !! k) eqn:E.
  - by apply lookup_union_Some_l.
  - by rewrite lookup_union_r.
Qed.

(** C5, as the program has it.  In a session that starts from the empty
    map, or from a numbered map imported into the empty map, the map stays
    numbered: distinct values carry distinct tokens, each of the form
    ["TKN_"] followed by its sequence number in the [07d] format, the
    numbers being those from 1 to the number of entries.  Tokenising never
    changes or removes an entry; the token written for a value is its
    entry, so a value already met gets the same token again; and of two
    values met for the first time the first one takes the smaller number.
    An import gives precedence to the imported entries on a key
    collision. *)
Theorem C5_token_map :
  numbered (py "TKN_") ∅ ∧
  (∀ imported, numbered (py "TKN_") imported →
               numbered (py "TKN_") (import_token_map ∅ imported)) ∧
  (∀ tm imported k,
     import_token_map tm imported !! k =
     match imported !! k with Some t => Some t | None => tm !! k end) ∧
  (∀ (tm : token_map) (vs : list str),
     numbered (py "TKN_") tm →
     let tm' := fst (tokenize_values (py "TKN_") tm vs) in
     let out := snd (tokenize_values (py "TKN_") tm vs) in
     numbered (py "TKN_") tm' ∧
     (∀ v1 v2 t, tm' !! v1 = Some t → tm' !! v2 = Some t → v1 = v2) ∧
     tm ⊆ tm' ∧
     (∀ i v, vs !! i = Some v → v ≠ [] →
             ∃ t, tm' !! v = Some t ∧ out !! i = Some t) ∧
     (∀ i v t, tm !! v = Some t → vs !! i = Some v → v ≠ [] → out !! i = Some t) ∧
     (∀ l1 v l2 w l3,
        vs = l1 ++ v :: l2 ++ w :: l3 →
        v ≠ [] → w ≠ [] → v ≠ w → tm !! v = None → tm !! w = None →
        v ∉ l1 → w ∉ l1 → w ∉ l2 →
        ∃ n m, tm' !! v = Some (token (py "TKN_") n) ∧
               tm' !! w = Some (token (py "TKN_") m) ∧ (n < m)%nat)).
Proof.
  split; [apply numbered_empty|]. split; [|split].
  - intros imported H. by rewrite import_into_empty.
  - apply import_precedence.
  - intros tm vs Hn tm' out.
    pose proof (tokenize_values_numbered (py "TKN_") tm vs Hn) as Hn'.
    pose proof (tokenize_values_subseteq (py "TKN_") tm vs) as Hsub.
    split; [done|]. split; [apply Hn'|]. split; [done|]. split; [|split].
    + intros i v. apply tokenize_values_lookup.
    + intros i v t Ht Hi Hv.
      destruct (tokenize_values_lookup (py "TKN_") tm vs i v Hi Hv) as (t' & H1 & H2).
      eapply lookup_weaken in Ht; [|exact Hsub]. fold tm' in H1. fold out in H2.
      unfold tm' in H1. congruence.
    + intros l1 v l2 w l3 ->. apply tokenize_values_first_seen.
Qed.

Lemma C5_token_map_witness :
  let vs := [py "sato"; py "suzuki"; py ""; py "sato"] in
  let tm' := fst (tokenize_values (py "TKN_") ∅ vs) in
  numbered (py "TKN_") tm' ∧
  ∃ n m, tm' !! py "sato" = Some (token (py "TKN_") n) ∧
         tm' !! py "suzuki" = Some (token (py "TKN_") m) ∧ (n < m)%nat.
Proof.
  intros vs tm'.
  destruct C5_token_map as (H0 & _ & _ & H).
  destruct (H ∅ vs H0) as (Hn & _ & _ & _ & _ & Hord).
  split; [exact Hn|].
  apply (Hord [] (py "sato") [] (py "suzuki") [py ""; py "sato"]);
    try reflexivity; try discriminate; apply not_elem_of_nil.
Defined.

Example tokens_of_run :
  snd (tokenize_values (py "TKN_") ∅ [py "sato"; py "suzuki"; py ""; py "sato"])
  = [py "TKN_0000001"; py "TKN_0000002"; py ""; py "TKN_0000001"].
Proof. vm_compute. reflexivity. Qed.

(** C5 as the specification words it fails after an import into a session
    that has already issued tokens, even when both maps were built by the
    tool: two values share a token, and a value already tokenised changes
    token. *)
Lemma C5_counterexample :
  let session := fst (tokenize_values (py "TKN_") ∅ [py "carol"]) in
  let exported1 := fst (tokenize_values (py "TKN_") ∅ [py "alice"]) in
  let exported2 := fst (tokenize_values (py "TKN_") ∅ [py "alice"; py "carol"]) in
  (numbered (py "TKN_") session ∧ numbered (py "TKN_") exported1 ∧
   numbered (py "TKN_") exported2) ∧
  (import_token_map session exported1 !! py "alice" = Some (py "TKN_0000001") ∧
   import_token_map session exported1 !! py "carol" = Some (py "TKN_0000001") ∧
   py "alice" ≠ py "carol") ∧
  (snd (tokenize_values (py "TKN_") session [py "carol"]) = [py "TKN_0000001"] ∧
   snd (tokenize_values (py "TKN_") (import_token_map session exported2) [py "carol"])
   = [py "TKN_0000002"]).
Proof.
  intros session exported1 exported2.
  split; [repeat split; apply tokenize_values_numbered, numbered_empty|].
  vm_compute. repeat split; discriminate.
Qed.

(** *** The chunked writer *)

Lemma chunk_rows_concat {A} (k : nat) (rws : list A) :
  (1 ≤ k)%nat → concat (chunk_rows k rws) = rws.
Proof.
  funelim (chunk_rows k rws); intros Hk; [lia|done|].
  cbn [concat]. rewrite H by lia. apply take_drop.
Qed.

Lemma mask_column_cell_op R P tm s :
  meth P ≠ Tokenize →
  mask_column R P tm s =
  match cell_op R P with
  | Raise e => Raise e
  | Ok None => Ok (tm, None)
  | Ok (Some f) => Ok (tm, Some (f <$> s))
  end.
Proof.
  unfold mask_column, cell_op. destruct (meth P); try done.
  - destruct (regex_pat P); [done|]. by destruct (re_compile R _).
  - by destruct (preset P).
Qed.

Lemma set_col_row_op R j f rws :
  set_col j (f <$> (as_text R <$> get_col j rws)) rws = row_op R j f <$> rws.
Proof.
  unfold set_col, get_col, row_op. induction rws as [|row rws IH]; csimpl; [done|].
  by rewrite IH.
Qed.

Lemma set_col_app j o1 o2 r1 r2 :
  length o1 = length r1 →
  set_col j (o1 ++ o2) (r1 ++ r2) = set_col j o1 r1 ++ set_col j o2 r2.
Proof. intros H. unfold set_col. by rewrite zip_with_app. Qed.

Lemma apply_cols_app_cellwise R P labels cs tm r1 r2 :
  meth P ≠ Tokenize →
  apply_cols R P cs tm (frame labels (r1 ++ r2)) =
  match apply_cols R P cs tm (frame labels r1) with
  | Raise e => Raise e
  | Ok (tm1, d1) =>
      match apply_cols R P cs tm1 (frame labels r2) with
      | Raise e => Raise e
      | Ok (tm2, d2) => Ok (tm2, frame labels (rows d1 ++ rows d2))
      end
  end.
Proof.
  intros Hm. pose proof (λ tm s, mask_column_cell_op R P tm s Hm) as Hmc.
  revert tm r1 r2. induction cs as [|c cs IH]; intros tm r1 r2; [done|].
  cbn [apply_cols].
  change (col_index (frame labels (r1 ++ r2)) c) with (col_index (frame labels r1) c).
  change (col_index (frame labels r2) c) with (col_index (frame labels r1) c).
  destruct (col_index (frame labels r1) c) as [j|]; [|apply IH].
  destruct (cell_op R P) as [[f|]|e].
  - rewrite !Hmc. cbn [rows columns]. rewrite !set_col_row_op, fmap_app, IH.
    destruct (apply_cols R P cs tm (frame labels (row_op R j f <$> r1)))
      as [[tm1 d1]|e]; [|done].
    rewrite Hmc. cbn [rows columns]. by rewrite set_col_row_op.
  - rewrite !Hmc, IH.
    destruct (apply_cols R P cs tm (frame labels r1)) as [[tm1 d1]|e]; [|done].
    by rewrite Hmc.
  - by rewrite !Hmc.
Qed.

Lemma apply_cols_present R P cs tm chunk :
  apply_cols R P cs tm chunk =
  apply_cols R P (filter (λ c, c ∈ columns chunk) cs) tm chunk.
Proof.
  revert tm chunk. induction cs as [|c cs IH]; intros tm chunk; [done|].
  rewrite filter_cons. case_decide as Hc.
  - cbn [apply_cols]. destruct (col_index chunk c); [|apply IH].
    destruct (mask_column R P tm _) as [[tm1 [new|]]|e]; [| |done].
    + apply (IH tm1 {| columns := columns chunk; rows := _ |}).
    + apply IH.
  - cbn [apply_cols]. apply col_index_None in Hc. rewrite Hc. apply IH.
Qed.

Lemma apply_cols_app_one_target R P labels cs tm r1 r2 :
  meth P = Tokenize →
  (length (filter (λ c, c ∈ labels) cs) ≤ 1)%nat →
  apply_cols R P cs tm (frame labels (r1 ++ r2)) =
  match apply_cols R P cs tm (frame labels r1) with
  | Raise e => Raise e
  | Ok (tm1, d1) =>
      match apply_cols R P cs tm1 (frame labels r2) with
      | Raise e => Raise e
      | Ok (tm2, d2) => Ok (tm2, frame labels (rows d1 ++ rows d2))
      end
  end.
Proof.
  intros Hm Hone.
  rewrite (apply_cols_present R P cs tm (frame labels (r1 ++ r2))).
  rewrite (apply_cols_present R P cs tm (frame labels r1)).
  cbn [columns].
  destruct (filter (λ c, c ∈ labels) cs) as [|c [|c' rest]] eqn:Hf;
    [| |simpl in Hone; lia].
  - cbn [apply_cols]. rewrite (apply_cols_present R P cs tm (frame labels r2)).
    cbn [columns]. by rewrite Hf.
  - cbn [apply_cols].
    change (col_index (frame labels (r1 ++ r2)) c) with (col_index (frame labels r1) c).
    destruct (col_index (frame labels r1) c) as [j|] eqn:Hj.
    + unfold mask_column. rewrite Hm. cbn [rows].
      unfold get_col. rewrite !fmap_app, tokenize_values_app.
      pose proof (tokenize_loop_length (py "TKN_") tm (size tm + 1)
                    (as_text R <$> (at_col j <$> r1))) as Hl1.
      fold (tokenize_values (py "TKN_") tm (as_text R <$> (at_col j <$> r1))) in Hl1.
      destruct (tokenize_values (py "TKN_") tm (as_text R <$> (at_col j <$> r1)))
        as [tm1 o1].
      rewrite (apply_cols_present R P cs tm1 (frame labels r2)).
      cbn [columns]. rewrite Hf. cbn [apply_cols].
      change (col_index (frame labels r2) c) with (col_index (frame labels r1) c).
      rewrite Hj. unfold mask_column. rewrite Hm. cbn [rows]. unfold get_col.
      destruct (tokenize_values (py "TKN_") tm1 (as_text R <$> (at_col j <$> r2)))
        as [tm2 o2].
      cbn [rows columns]. rewrite set_col_app; [done|].
      simpl in Hl1. by rewrite Hl1, !length_fmap.
    + rewrite (apply_cols_present R P cs tm (frame labels r2)).
      cbn [columns]. rewrite Hf. cbn [apply_cols].
      change (col_index (frame labels r2) c) with (col_index (frame labels r1) c).
      by rewrite Hj.
Qed.

(** Masking a table is masking its first rows, then its last rows with the
    token map the first rows left. *)
Lemma batchable_additive R P labels tm r1 r2 :
  batchable P labels →
  _apply_masking R P tm (frame labels (r1 ++ r2)) =
  match _apply_masking R P tm (frame labels r1) with
  | Raise e => Raise e
  | Ok (tm1, d1) =>
      match _apply_masking R P tm1 (frame labels r2) with
      | Raise e => Raise e
      | Ok (tm2, d2) => Ok (tm2, frame labels (rows d1 ++ rows d2))
      end
  end.
Proof.
  unfold _apply_masking. intros [Hm|Hone].
  - by apply apply_cols_app_cellwise.
  - destruct (decide (meth P = Tokenize)) as [Hm|Hm].
    + by apply apply_cols_app_one_target.
    + by apply apply_cols_app_cellwise.
Qed.

Lemma stream_chunks_cons R P c chunk rest write_header tm file :
  stream_chunks R P c (chunk :: rest) write_header tm file =
  match _apply_masking R P tm chunk with
  | Raise e => Raise e
  | Ok (tm', chunk') =>
      stream_chunks R P c rest false tm' (file ++ to_csv chunk' write_header c file)
  end.
Proof. done. Qed.

(** Appending to a plain file in two calls leaves what one call leaves:
    the byte-order mark goes before the first text an empty file is
    given. *)
Lemma to_csv_plain_app labels r1 r2 write_header file :
  let file1 := file ++ to_csv (frame labels r1) write_header false file in
  file1 ++ to_csv (frame labels r2) false false file1
  = file ++ to_csv (frame labels (r1 ++ r2)) write_header false file.
Proof.
  unfold to_csv, csv_text. cbn [columns rows orb]. rewrite fmap_app.
  set (h := if write_header then [HeaderLine labels] else []).
  set (t1 := DataLine <$> r1). set (t2 := DataLine <$> r2).
  change ([] ++ t2) with t2. rewrite (app_assoc h t1 t2).
  generalize (h ++ t1). clear h t1. intros t1.
  destruct file as [|l file].
  - rewrite bool_decide_eq_true_2 by done. cbn [andb app].
    destruct t1 as [|l1 t1].
    + rewrite (bool_decide_eq_true_2 ([] = [])) by done. done.
    + rewrite (bool_decide_eq_false_2 (l1 :: t1 = [])) by done. cbn [negb].
      rewrite (bool_decide_eq_false_2 (BOM :: l1 :: t1 = [])) by done.
      rewrite (bool_decide_eq_false_2 ((l1 :: t1) ++ t2 = [])) by done. done.
  - rewrite (bool_decide_eq_false_2 (l :: file = [])) by done. cbn [andb].
    rewrite bool_decide_eq_false_2 by done. cbn [andb]. by rewrite <- app_assoc.
Qed.

Lemma stream_chunks_one_pass R P labels (batches : list (list (list cell)))
    write_header tm file :
  batchable P labels → batches ≠ [] →
  stream_chunks R P false ((λ rws, frame labels rws) <$> batches) write_header tm file =
  match _apply_masking R P tm (frame labels (concat batches)) with
  | Raise e => Raise e
  | Ok (tm', masked) => Ok (tm', file ++ to_csv masked write_header false file)
  end.
Proof.
  intros Hb. revert write_header tm file.
  induction batches as [|r batches IH]; intros wh tm file Hne; [done|].
  rewrite fmap_cons, stream_chunks_cons.
  destruct batches as [|r' batches'].
  - cbn [concat]. rewrite app_nil_r.
    by destruct (_apply_masking R P tm (frame labels r)) as [[tm1 d1]|e].
  - change (concat (r :: r' :: batches')) with (r ++ concat (r' :: batches')).
    rewrite (batchable_additive R P labels tm r (concat (r' :: batches')) Hb).
    destruct (_apply_masking R P tm (frame labels r)) as [[tm1 d1]|e] eqn:H1; [|done].
    rewrite IH by done.
    destruct (_apply_masking R P tm1 (frame labels (concat (r' :: batches'))))
      as [[tm2 d2]|e] eqn:H2; [|done].
    apply apply_cols_frame in H1 as (Hc1 & _). apply apply_cols_frame in H2 as (Hc2 & _).
    destruct d1 as [c1 rows1], d2 as [c2 rows2]. cbn [columns rows] in *. subst c1 c2.
    f_equal. f_equal. apply to_csv_plain_app.
Qed.

(** C6, as the program has it: for every delimited input file, every
    chunk size of at least one row and every policy that does not tokenise
    more than one column of the table, when the output is not compressed
    or the table fits in one batch, [stream_mask_save] appends to the
    output file what one call of [to_csv] on one pass of the dispatcher
    over the whole table appends: the labels once, then the masked rows
    in the order of the input; and it leaves the same token map.  When
    the dispatcher raises, so does the writer. *)
Theorem C6_streaming_equals_one_pass (U : Unicode) (R : Runtime) (P : Policy)
    (path : str) (table : DataFrame) (chunksize : nat) (out_dir : option str)
    (gzip_save : bool) (tm : token_map) (existing : list line) :
  endswith (lower U path) (py ".xlsx") || endswith (lower U path) (py ".xls") = false →
  (1 ≤ chunksize)%nat →
  batchable P (columns table) →
  compression U path gzip_save = false ∨ (length (rows table) ≤ chunksize)%nat →
  stream_mask_save U R P path table chunksize out_dir gzip_save tm existing =
  match _apply_masking R P tm table with
  | Raise e => Raise e
  | Ok (tm', masked) =>
      Ok (out_path U path out_dir gzip_save, tm',
          existing ++ to_csv masked true (compression U path gzip_save) existing)
  end.
Proof.
  intros Hx Hk Hb Hc. unfold stream_mask_save. rewrite Hx.
  unfold read_csv_chunks. destruct chunksize as [|k]; [lia|].
  destruct Hc as [Hc|Hc].
  - rewrite Hc.
    rewrite (stream_chunks_one_pass R P (columns table)
               (take (S k) (rows table) :: chunk_rows (S k) (drop (S k) (rows table))))
      by done.
    cbn [concat]. rewrite chunk_rows_concat by lia. rewrite take_drop.
    replace (frame (columns table) (rows table)) with table by by destruct table.
    by destruct (_apply_masking R P tm table) as [[tm' d]|e].
  - rewrite take_ge, drop_ge by done.
    replace (chunk_rows (S k) (@nil (list cell))) with (@nil (list (list cell)))
      by by simp chunk_rows.
    rewrite fmap_cons, fmap_nil, stream_chunks_cons.
    replace (frame (columns table) (rows table)) with table by by destruct table.
    by destruct (_apply_masking R P tm table) as [[tm' d]|e].
Qed.

Lemma C6_streaming_equals_one_pass_witness :
  stream_mask_save basic_latin (mini_runtime NaN)
    (demo_policy Tokenize [py "name"; py "zip"]) (py "/srv/in/people.csv") people 2
    None false ∅ []
  = match _apply_masking (mini_runtime NaN)
            (demo_policy Tokenize [py "name"; py "zip"]) ∅ people with
    | Raise e => Raise e
    | Ok (tm', masked) =>
        Ok (out_path basic_latin (py "/srv/in/people.csv") None false, tm',
            [] ++ to_csv masked true
                    (compression basic_latin (py "/srv/in/people.csv") false) [])
    end.
Proof.
  apply C6_streaming_equals_one_pass.
  - reflexivity.
  - lia.
  - right. vm_compute. lia.
  - left. reflexivity.
Defined.

Example streamed_people :
  (match stream_mask_save basic_latin (mini_runtime NaN)
           (demo_policy Tokenize [py "name"; py "zip"]) (py "/srv/in/people.csv")
           people 2 None false ∅ [] with
   | Ok (p, _, file) => Some (p, file)
   | Raise _ => None
   end)
  = Some (py "/srv/in/people_maked.csv",
          [ BOM;
            HeaderLine [py "name"; py "tel"];
            DataLine [Str (py "TKN_0000001"); Str (py "03-1234")];
            DataLine [Str (py "TKN_0000002"); Str (py "06-5678")];
            DataLine [Str (py "TKN_0000001"); Str (py "")] ]).
Proof. vm_compute. reflexivity. Qed.

(** Under gzip every batch is a member of its own and starts with a
    byte-order mark: with two batches the file holds a mark in front of
    the third row, where one call of [to_csv] on the whole table puts
    none. *)
Example streamed_people_gzip :
  (match stream_mask_save basic_latin (mini_runtime NaN)
           (demo_policy FullMask [py "tel"]) (py "/srv/in/people.csv")
           people 2 None true ∅ [] with
   | Ok (p, _, file) => Some (p, file)
   | Raise _ => None
   end)
  = Some (py "/srv/in/people_maked.csv.gz",
          [ BOM;
            HeaderLine [py "name"; py "tel"];
            DataLine [Str (py "sato"); Str (py "****")];
            DataLine [Str (py "suzuki"); Str (py "****")];
            BOM;
            DataLine [Str (py "sato"); Str (py "")] ]).
Proof. vm_compute. reflexivity. Qed.

(** C6 as the specification words it fails for tokenisation of two
    columns: one pass numbers the values of the first column before those
    of the second, batches number them batch by batch. *)
Lemma C6_counterexample :
  let P := demo_policy Tokenize [py "name"; py "tel"] in
  let streamed :=
    match stream_mask_save basic_latin (mini_runtime NaN) P (py "/srv/in/people.csv")
            people 1 None false ∅ [] with
    | Ok (_, _, file) => file
    | Raise _ => []
    end in
  let one_pass :=
    match _apply_masking (mini_runtime NaN) P ∅ people with
    | Ok (_, masked) => to_csv masked true false []
    | Raise _ => []
    end in
  streamed
  = [ BOM;
      HeaderLine [py "name"; py "tel"];
      DataLine [Str (py "TKN_0000001"); Str (py "TKN_0000002")];
      DataLine [Str (py "TKN_0000003"); Str (py "TKN_0000004")];
      DataLine [Str (py "TKN_0000001"); Str (py "")] ] ∧
  one_pass
  = [ BOM;
      HeaderLine [py "name"; py "tel"];
      DataLine [Str (py "TKN_0000001"); Str (py "TKN_0000003")];
      DataLine [Str (py "TKN_0000002"); Str (py "TKN_0000004")];
      DataLine [Str (py "TKN_0000001"); Str (py "")] ] ∧
  streamed ≠ one_pass.
Proof. vm_compute. repeat split; discriminate. Qed.

End MaskingFacts.

(** ** Further properties of the masking tool *)

Section MaskingMore.
Import Re DataMasking DataMaskingMore Spec Examples.

(** *** The regex mask, character by character *)

Lemma finditer_from_None re subject pos adv :
  search re subject pos adv = None → finditer_from re subject pos adv = [].
Proof. intros H. funelim (finditer_from re subject pos adv); [congruence|done]. Qed.

Lemma finditer_from_Some re subject pos adv m :
  search re subject pos adv = Some m →
  finditer_from re subject pos adv
  = m :: finditer_from re subject (m_end m) (bool_decide (m_end m = m_start m)).
Proof.
  revert m. funelim (finditer_from re subject pos adv); intros m' Hm'; [|congruence].
  assert (m' = m) as -> by congruence. done.
Qed.

Lemma finditer_from_bounds re subject pos adv :
  Forall (λ m, pos ≤ m_start m ∧ m_end m ≤ length subject)%nat
         (finditer_from re subject pos adv).
Proof.
  funelim (finditer_from re subject pos adv); [|constructor].
  destruct (search_admissible _ _ _ _ _ Hm) as (H1 & H2 & H3 & H4).
  constructor; [lia|]. eapply Forall_impl; [exact H|]. simpl. lia.
Qed.

Lemma sub_from_stars_pointwise re subject pos adv k :
  (pos ≤ length subject)%nat →
  sub_from re (λ m, times star (Z.of_nat (length (group0 subject m)))) subject pos adv
    !! k
  = if existsb (in_match (pos + k)) (finditer_from re subject pos adv)
    then Some 42 else subject !! (pos + k)%nat.
Proof.
  remember (λ m, times star (Z.of_nat (length (group0 subject m)))) as repl eqn:Hrepl.
  revert k. funelim (sub_from re repl subject pos adv); intros k Hpos; cbn zeta.
  - destruct (search_admissible _ _ _ _ _ Hm) as (H1 & H2 & H3 & H4).
    rewrite (finditer_from_Some _ _ _ _ _ Hm). cbn [existsb].
    pose proof (finditer_from_bounds re subject0 (m_end m)
                  (bool_decide (m_end m = m_start m))) as Hb.
    rewrite times_star.
    assert (length (take (m_start m - pos) (drop pos subject0)) = (m_start m - pos)%nat)
      as Hl1 by (rewrite length_take, length_drop; lia).
    assert (length (group0 subject0 m) = (m_end m - m_start m)%nat) as Hl2
      by (unfold group0; rewrite length_take, length_drop; lia).
    rewrite Hl2, Nat2Z.id.
    destruct (decide (k < m_start m - pos)%nat) as [Hk|Hk].
    + rewrite lookup_app_l by lia.
      rewrite lookup_take_lt by lia. rewrite lookup_drop.
      replace (in_match (pos + k) m) with false
        by (symmetry; unfold in_match; apply andb_false_iff; left;
            apply Nat.leb_gt; lia).
      replace (existsb _ _) with false; [done|]. symmetry.
      apply not_true_is_false. intros He. apply existsb_exists in He as (m' & Hin & Hm').
      apply list_elem_of_In in Hin. rewrite Forall_forall in Hb.
      specialize (Hb m' Hin). unfold in_match in Hm'.
      apply andb_true_iff in Hm' as [Hs _]. apply Nat.leb_le in Hs. lia.
    + rewrite lookup_app_r by lia. rewrite Hl1.
      destruct (decide (k - (m_start m - pos) < m_end m - m_start m)%nat) as [Hk2|Hk2].
      * rewrite lookup_app_l by (rewrite length_replicate; lia).
        rewrite lookup_replicate_2 by lia.
        replace (in_match (pos + k) m) with true; [done|].
        symmetry. unfold in_match. apply andb_true_iff.
        split; [apply Nat.leb_le|apply Nat.ltb_lt]; lia.
      * rewrite lookup_app_r by (rewrite length_replicate; lia).
        rewrite length_replicate.
        rewrite (H eq_refl (k - (m_start m - pos) - (m_end m - m_start m))%nat H3).
        replace (m_end m + (k - (m_start m - pos) - (m_end m - m_start m)))%nat
          with (pos + k)%nat by lia.
        replace (in_match (pos + k) m) with false; [done|].
        symmetry. unfold in_match. apply andb_false_iff. right.
        apply Nat.ltb_ge. lia.
  - rewrite (finditer_from_None _ _ _ _ e). by rewrite lookup_drop.
Qed.

(** A text masked by a pattern holds an asterisk at every position that
    lies in one of the matches the substitution finds, and the character
    of the text at every other position. *)
Theorem regex_mask_pointwise (reg : regex) (x : str) (i : nat) :
  regex_stars reg x !! i
  = if existsb (in_match i) (finditer reg x) then Some 42 else x !! i.
Proof.
  unfold regex_stars, regex_repl, finditer. destruct x as [|c x].
  - replace (existsb _ _) with false; [done|]. symmetry.
    apply not_true_is_false. intros He. apply existsb_exists in He as (m & Hin & Hm).
    pose proof (finditer_from_bounds reg [] 0 false) as Hb.
    rewrite Forall_forall in Hb. apply list_elem_of_In in Hin.
    destruct (Hb m Hin) as [_ Hb']. unfold in_match in Hm.
    apply andb_true_iff in Hm as [Hs He]. apply Nat.leb_le in Hs.
    apply Nat.ltb_lt in He. simpl in Hb'. lia.
  - apply (sub_from_stars_pointwise reg (c :: x) 0 false i). simpl. lia.
Qed.

(** The digits of a telephone number are matched one by one by [\d]: all
    of them become asterisks and the hyphen stays. *)
Example regex_mask_digits :
  ∃ reg, re_compile (mini_runtime NaN) (py "\d") = Some reg ∧
         regex_stars reg (py "03-1234") = py "**-****" ∧
         (λ m, (m_start m, m_end m)) <$> finditer reg (py "03-1234")
         = [(0, 1); (1, 2); (3, 4); (4, 5); (5, 6); (6, 7)]%nat.
Proof. eexists. split; [reflexivity|]. vm_compute. split; reflexivity. Qed.

(** Where the pattern finds nothing, [sub] returns its subject: the regex
    mask and the e-mail and phone presets pass such a cell through. *)
Lemma sub_no_match re repl x :
  search re x 0 false = None → sub re repl x = x.
Proof.
  intros H. unfold sub. funelim (sub_from re repl x 0 false); [congruence|done].
Qed.

Theorem no_match_passes_through (R : Runtime) (reg : regex) (x : str) :
  (search reg x 0 false = None → regex_stars reg x = x) ∧
  (search (email_re R) x 0 false = None → PRESETS R Email x = x) ∧
  (search (phone_re R) x 0 false = None → PRESETS R Phone x = x).
Proof.
  split; [|split]; intros H.
  - unfold regex_stars, regex_repl. destruct x; [done|]. by apply sub_no_match.
  - by apply sub_no_match.
  - by apply sub_no_match.
Qed.

Lemma no_match_passes_through_witness :
  regex_stars (MiniRe.compiled MiniRe.digits_run) (py "no digits") = py "no digits" ∧
  PRESETS (mini_runtime NaN) Phone (py "n/a") = py "n/a".
Proof.
  split.
  - apply (no_match_passes_through (mini_runtime NaN)). reflexivity.
  - apply (no_match_passes_through (mini_runtime NaN)
             (MiniRe.compiled MiniRe.digits_run)). reflexivity.
Defined.

(** *** The length of a partial mask *)

(** With at least one character kept at the end, the partial mask is never
    shorter than the value, and has its length exactly when nothing is
    kept at the start or the two kept parts do not overlap. *)
Theorem partial_mask_length (head tail : Z) (x : str) :
  (0 ≤ head)%Z → (1 ≤ tail)%Z →
  (length x ≤ length (keep_head_tail head tail x))%nat ∧
  (length (keep_head_tail head tail x) = length x ↔
   (x = [] ∨ head = 0%Z ∨ (head + tail ≤ Z.of_nat (length x))%Z)).
Proof.
  intros Hh Ht. rewrite keep_head_tail_partial_mask by done.
  unfold partial_mask.
  rewrite !length_app, length_take, length_replicate, length_drop.
  split; [lia|]. split.
  - intros H. destruct x as [|c x]; [by left|]. right. simpl length in *. lia.
  - intros [->|[->|H]]; simpl length; lia.
Qed.

Lemma partial_mask_length_witness :
  (length (py "1234567890") ≤ length (keep_head_tail 8 8 (py "1234567890")))%nat ∧
  length (keep_head_tail 3 4 (py "1234567890")) = length (py "1234567890").
Proof.
  split.
  - apply (partial_mask_length 8 8 (py "1234567890")); lia.
  - apply (partial_mask_length 3 4 (py "1234567890")); [lia|lia|].
    right. right. vm_compute. discriminate.
Defined.

(** *** What the dispatcher does to the table and to the token map *)

Lemma mask_column_token_map R P tm s tm' o :
  mask_column R P tm s = Ok (tm', o) →
  tm ⊆ tm' ∧
  (numbered (py "TKN_") tm → numbered (py "TKN_") tm') ∧
  (meth P ≠ Tokenize → tm' = tm).
Proof.
  unfold mask_column. destruct (meth P) eqn:Hm;
    try (intros [= <- <-]; done).
  - pose proof (tokenize_values_subseteq (py "TKN_") tm s) as H1.
    pose proof (tokenize_values_numbered (py "TKN_") tm s) as H2.
    destruct (tokenize_values (py "TKN_") tm s) as [tm1 out].
    intros [= <- <-]. simpl in *. done.
  - destruct (regex_pat P); [by intros [= <- <-]|].
    destruct (re_compile R _); by intros [= <- <-].
  - destruct (preset P); [|done]. by intros [= <- <-].
Qed.

(** Whatever the policy, the dispatcher never changes or removes a token:
    the map it returns extends the one it was given and is numbered if
    that one was; only tokenisation adds entries. *)
Theorem dispatcher_extends_token_map (R : Runtime) (P : Policy) (tm tm' : token_map)
    (chunk chunk' : DataFrame) :
  _apply_masking R P tm chunk = Ok (tm', chunk') →
  tm ⊆ tm' ∧
  (numbered (py "TKN_") tm → numbered (py "TKN_") tm') ∧
  (meth P ≠ Tokenize → tm' = tm).
Proof.
  unfold _apply_masking. generalize (cols P) as cs.
  intros cs. revert tm chunk. induction cs as [|c cs IH]; intros tm chunk; simpl.
  - by intros [= <- <-].
  - destruct (col_index chunk c) as [j|]; [|apply IH].
    destruct (mask_column R P tm _) as [[tm1 o]|e] eqn:Hm; [|done].
    apply mask_column_token_map in Hm as (H1 & H2 & H3).
    intros H.
    assert (tm1 ⊆ tm' ∧ (numbered (py "TKN_") tm1 → numbered (py "TKN_") tm') ∧
            (meth P ≠ Tokenize → tm' = tm1)) as (H1' & H2' & H3').
    { destruct o; by apply IH in H. }
    split; [by etrans|]. split; [auto|].
    intros Hne. rewrite (H3' Hne). auto.
Qed.

Lemma dispatcher_extends_token_map_witness :
  (∅ : token_map) ⊆ <[py "sato" := py "TKN_0000001"]>
                     (<[py "suzuki" := py "TKN_0000002"]> ∅).
Proof.
  apply (dispatcher_extends_token_map (mini_runtime NaN)
           (demo_policy Tokenize [py "name"]) ∅ _ people
           {| columns := columns people;
              rows := [ [Str (py "TKN_0000001"); Str (py "03-1234")];
                        [Str (py "TKN_0000002"); Str (py "06-5678")];
                        [Str (py "TKN_0000001"); Str (py "")] ] |}).
  vm_compute. reflexivity.
Defined.

Lemma apply_cols_leaves R P cs tm chunk :
  (∀ tm s, mask_column R P tm s = Ok (tm, None)) →
  apply_cols R P cs tm chunk = Ok (tm, chunk).
Proof.
  intros H. induction cs as [|c cs IH]; simpl; [done|].
  destruct (col_index chunk c); [|done]. by rewrite H.
Qed.

(** With a method name the dispatcher does not know, or the regex method
    without a pattern that compiles, the table comes back unmasked and no
    error is raised. *)
Theorem unusable_policy_leaves_table (R : Runtime) (P : Policy) (tm : token_map)
    (chunk : DataFrame) :
  leaves_columns R P → _apply_masking R P tm chunk = Ok (tm, chunk).
Proof.
  intros H. apply apply_cols_leaves. intros tm0 s. unfold mask_column.
  destruct H as [->|[-> [->| Hc]]]; [done|done|].
  rewrite Hc. by destruct (regex_pat P).
Qed.

Lemma unusable_policy_leaves_table_witness :
  _apply_masking (mini_runtime NaN)
    {| cols := [py "name"; py "tel"]; meth := RegexMask; head_n := 0; tail_n := 0;
       salt := []; regex_pat := py "(\d"; preset := None |} ∅ people
  = Ok (∅, people).
Proof.
  apply unusable_policy_leaves_table. right. split; [reflexivity|].
  right. reflexivity.
Defined.

(** The preset method without a preset name raises [KeyError] as soon as
    one target column is in the table. *)
Theorem preset_without_name_raises (R : Runtime) (P : Policy) (tm : token_map)
    (chunk : DataFrame) (c : str) :
  meth P = PresetMask → preset P = None →
  c ∈ cols P → c ∈ columns chunk →
  _apply_masking R P tm chunk = Raise KeyError.
Proof.
  intros Hm Hp Hc Hin. unfold _apply_masking. revert Hc.
  generalize (cols P) as cs. intros cs.
  induction cs as [|c0 cs IH]; intros Hc; [by apply elem_of_nil in Hc|].
  simpl. destruct (col_index chunk c0) as [j|] eqn:Hj.
  - unfold mask_column. by rewrite Hm, Hp.
  - apply IH. apply elem_of_cons in Hc as [->|Hc]; [|done].
    apply col_index_None in Hj. done.
Qed.

Lemma preset_without_name_raises_witness :
  _apply_masking (mini_runtime NaN) (demo_policy PresetMask [py "zip"; py "tel"])
    ∅ people = Raise KeyError.
Proof.
  apply (preset_without_name_raises _ _ _ _ (py "tel")).
  - reflexivity.
  - reflexivity.
  - right. left.
  - right. left.
Defined.

(** *** Masking in full twice *)

Lemma apply_cols_rewrite_rows R P f labels cs tm rws :
  meth P ≠ Tokenize → cell_op R P = Ok (Some f) →
  apply_cols R P cs tm (frame labels rws)
  = Ok (tm, frame labels (rewrite_rows R labels f cs rws)).
Proof.
  intros Hm Hf. revert rws. induction cs as [|c cs IH]; intros rws; [done|].
  cbn [apply_cols]. unfold rewrite_rows. cbn [foldl].
  destruct (col_index (frame labels rws) c) as [j|]; [|apply IH].
  rewrite mask_column_cell_op, Hf by done. cbn [rows columns].
  rewrite set_col_row_op. apply IH.
Qed.

Lemma row_op_settled R f j row :
  (∀ v, f (f v) = f v) → settled f j (row_op R j f row).
Proof.
  intros Hf c. unfold row_op. destruct (decide (j < length row)%nat) as [Hj|Hj].
  - rewrite list_lookup_insert_eq by done. intros [= <-]. eauto.
  - rewrite list_insert_ge by lia. intros Hc. apply lookup_lt_Some in Hc. lia.
Qed.

Lemma row_op_keeps_settled R f j j' row :
  (∀ v, f (f v) = f v) → settled f j row → settled f j (row_op R j' f row).
Proof.
  intros Hf Hs. destruct (decide (j' = j)) as [->|Hne].
  - by apply row_op_settled.
  - intros c. unfold row_op. rewrite list_lookup_insert_ne by done. apply Hs.
Qed.

Lemma row_op_id R f j row : settled f j row → row_op R j f row = row.
Proof.
  intros Hs. unfold row_op, at_col. destruct (row !! j) as [c|] eqn:Hc.
  - destruct (Hs c Hc) as (v & -> & Hv). simpl.
    unfold as_text. simpl. rewrite Hv. by apply list_insert_id.
  - apply list_insert_ge. by apply lookup_ge_None.
Qed.

Lemma rewrite_rows_keeps_settled R labels f cs rws j :
  (∀ v, f (f v) = f v) →
  Forall (settled f j) rws → Forall (settled f j) (rewrite_rows R labels f cs rws).
Proof.
  intros Hf. revert rws. induction cs as [|c cs IH]; intros rws Hs; [done|].
  unfold rewrite_rows. cbn [foldl]. apply IH.
  destruct (col_index (frame labels rws) c) as [j'|]; [|done].
  apply Forall_fmap. eapply Forall_impl; [exact Hs|].
  intros row. by apply row_op_keeps_settled.
Qed.

Lemma rewrite_rows_settles R labels f cs rws c j :
  (∀ v, f (f v) = f v) →
  c ∈ cs → col_index (frame labels rws) c = Some j →
  Forall (settled f j) (rewrite_rows R labels f cs rws).
Proof.
  intros Hf. revert rws. induction cs as [|c0 cs IH]; intros rws Hc Hj;
    [by apply elem_of_nil in Hc|].
  unfold rewrite_rows. cbn [foldl].
  destruct (decide (c0 = c)) as [->|Hne].
  - rewrite Hj. apply rewrite_rows_keeps_settled; [done|].
    apply Forall_fmap, Forall_forall. intros row _. by apply row_op_settled.
  - apply elem_of_cons in Hc as [->|Hc]; [done|]. by apply IH.
Qed.

Lemma row_op_fmap_id R f j (rws : list (list cell)) :
  Forall (settled f j) rws → row_op R j f <$> rws = rws.
Proof.
  induction 1 as [|row rws' Hrow _ IH]; csimpl; [done|]. by rewrite row_op_id, IH.
Qed.

Lemma rewrite_rows_id R labels f cs rws :
  (∀ c j, c ∈ cs → col_index (frame labels rws) c = Some j →
          Forall (settled f j) rws) →
  rewrite_rows R labels f cs rws = rws.
Proof.
  induction cs as [|c cs IH]; intros Hs; [done|].
  unfold rewrite_rows. cbn [foldl].
  destruct (col_index (frame labels rws) c) as [j|] eqn:Hj.
  - assert (row_op R j f <$> rws = rws) as ->.
    { apply row_op_fmap_id, (Hs c j); [left|done]. }
    apply IH. intros c' j' Hc'. apply Hs. by right.
  - apply IH. intros c' j' Hc'. apply Hs. by right.
Qed.

(** Masking a table in full a second time changes nothing: once the
    dispatcher has returned, running it again with the same policy returns
    the same table and the same token map. *)
Theorem full_mask_twice (R : Runtime) (P : Policy) (tm tm1 : token_map)
    (chunk masked : DataFrame) :
  meth P = FullMask →
  _apply_masking R P tm chunk = Ok (tm1, masked) →
  _apply_masking R P tm1 masked = Ok (tm1, masked).
Proof.
  intros Hm. unfold _apply_masking. destruct chunk as [labels rws].
  set (f := if_nonempty (λ _ : str, py "****")).
  assert (∀ v, f (f v) = f v) as Hf by (by intros [|c v]).
  assert (meth P ≠ Tokenize) as Hne by (by rewrite Hm).
  assert (cell_op R P = Ok (Some f)) as Hop by (unfold cell_op; by rewrite Hm).
  rewrite (apply_cols_rewrite_rows R P f) by done. intros [= <- <-].
  rewrite (apply_cols_rewrite_rows R P f) by done.
  rewrite rewrite_rows_id; [done|].
  intros c j Hc Hj. by apply (rewrite_rows_settles R labels f (cols P) rws c j).
Qed.

Lemma full_mask_twice_witness :
  let masked := {| columns := columns people;
                   rows := [ [Str (py "sato"); Str (py "****")];
                             [Str (py "suzuki"); Str (py "****")];
                             [Str (py "sato"); Str (py "")] ] |} in
  _apply_masking (mini_runtime NaN) (demo_policy FullMask [py "tel"]) ∅ masked
  = Ok (∅, masked).
Proof.
  intros masked.
  apply (full_mask_twice (mini_runtime NaN) (demo_policy FullMask [py "tel"]) ∅ ∅
           people masked).
  - reflexivity.
  - vm_compute. reflexivity.
Defined.

(** *** Tokens mirror values *)

Lemma token_nonempty prefix n : token prefix n ≠ [].
Proof.
  unfold token, zfill. intros H. apply (f_equal length) in H.
  rewrite !length_app, length_replicate in H. simpl in H. lia.
Qed.

Lemma tokenize_values_mirror (prefix : str) (tm : token_map) (vs : list str)
    (i j : nat) (v w : str) :
  numbered prefix tm →
  vs !! i = Some v → vs !! j = Some w →
  (snd (tokenize_values prefix tm vs) !! i = snd (tokenize_values prefix tm vs) !! j
   ↔ v = w).
Proof.
  intros Hn Hi Hj.
  pose proof (tokenize_values_numbered prefix tm vs Hn) as [Hinj Hnum].
  assert (∀ k u, vs !! k = Some u → u = [] →
                 snd (tokenize_values prefix tm vs) !! k = Some []) as Hempty.
  { intros k u Hk ->. by apply tokenize_loop_empty. }
  assert (∀ k u, vs !! k = Some u → u ≠ [] →
                 ∃ t, fst (tokenize_values prefix tm vs) !! u = Some t ∧
                      snd (tokenize_values prefix tm vs) !! k = Some t ∧ t ≠ [])
    as Hfull.
  { intros k u Hk Hu.
    destruct (tokenize_values_lookup prefix tm vs k u Hk Hu) as (t & H1 & H2).
    exists t. split; [done|]. split; [done|].
    destruct (Hnum u t H1) as (n & _ & ->). apply token_nonempty. }
  split.
  - intros Heq. destruct (decide (v = [])) as [Hv|Hv], (decide (w = [])) as [Hw|Hw].
    + congruence.
    + rewrite (Hempty i v Hi Hv) in Heq.
      destruct (Hfull j w Hj Hw) as (t & _ & H2 & Ht). congruence.
    + rewrite (Hempty j w Hj Hw) in Heq.
      destruct (Hfull i v Hi Hv) as (t & _ & H2 & Ht). congruence.
    + destruct (Hfull i v Hi Hv) as (t & H1 & H2 & _).
      destruct (Hfull j w Hj Hw) as (t' & H1' & H2' & _).
      apply (Hinj v w t); [done|]. congruence.
  - intros <-. destruct (decide (v = [])) as [Hv|Hv].
    + by rewrite (Hempty i v Hi Hv), (Hempty j v Hj Hv).
    + destruct (Hfull i v Hi Hv) as (t & H1 & H2 & _).
      destruct (Hfull j v Hj Hv) as (t' & H1' & H2' & _). congruence.
Qed.

(** Starting from a numbered map, two cells of a tokenised column get the
    same output exactly when they have the same text after
    [astype(str).fillna("")]; two cells that hold texts, exactly when they
    hold the same text.  A missing cell goes by what [astype(str)] makes
    of it. *)
Theorem tokens_mirror_values (R : Runtime) (prefix : str) (tm : token_map)
    (series : list cell) (i j : nat) (c c' : cell) :
  numbered prefix tm →
  series !! i = Some c → series !! j = Some c' →
  let out := snd (tokenize_series R tm series prefix) in
  (out !! i = out !! j ↔ as_text R c = as_text R c') ∧
  (∀ v w, c = Str v → c' = Str w → (out !! i = out !! j ↔ v = w)).
Proof.
  intros Hn Hi Hj out.
  assert (out !! i = out !! j ↔ as_text R c = as_text R c') as Hiff.
  { unfold out, tokenize_series.
    pose proof (tokenize_values_mirror prefix tm (as_text R <$> series) i j
                  (as_text R c) (as_text R c') Hn) as Hm.
    destruct (tokenize_values prefix tm (as_text R <$> series)) as [tm' texts].
    cbn [snd] in *. rewrite !list_lookup_fmap in *. rewrite Hi, Hj in Hm.
    rewrite <- (Hm eq_refl eq_refl).
    destruct (texts !! i), (texts !! j); simpl; split; congruence. }
  split; [done|]. by intros v w -> ->.
Qed.

Lemma tokens_mirror_values_witness :
  let series := [Str (py "sato"); Str (py "suzuki"); Str (py ""); Str (py "sato")] in
  let out := snd (tokenize_series (mini_runtime NaN) ∅ series (py "TKN_")) in
  (out !! 0%nat = out !! 3%nat ↔ py "sato" = py "sato") ∧
  (out !! 0%nat = out !! 1%nat ↔ py "sato" = py "suzuki").
Proof.
  intros series out. split.
  - refine (proj2 (tokens_mirror_values (mini_runtime NaN) (py "TKN_") ∅ series 0 3
                     (Str (py "sato")) (Str (py "sato")) _ _ _) _ _ _ _).
    + apply numbered_empty.
    + reflexivity.
    + reflexivity.
    + reflexivity.
    + reflexivity.
  - refine (proj2 (tokens_mirror_values (mini_runtime NaN) (py "TKN_") ∅ series 0 1
                     (Str (py "sato")) (Str (py "suzuki")) _ _ _) _ _ _ _).
    + apply numbered_empty.
    + reflexivity.
    + reflexivity.
    + reflexivity.
    + reflexivity.
Defined.

(** A missing cell and a cell with the same text as [astype(str)] gives
    it get the same token: the text ['nan'] up to pandas 2, the empty
    output from pandas 3 on. *)
Example missing_cell_token :
  snd (tokenize_series (mini_runtime (Str (py "nan"))) ∅ [NaN; Str (py "nan")] (py "TKN_"))
  = [Str (py "TKN_0000001"); Str (py "TKN_0000001")] ∧
  snd (tokenize_series (mini_runtime NaN) ∅ [NaN; Str (py "")] (py "TKN_"))
  = [Str []; Str []].
Proof. vm_compute. split; reflexivity. Qed.

(** *** The output path *)

Lemma span_Forall_app {A} (f : A → bool) (a b : list A) :
  Forall (λ c, f c = true) a → fst (span f (a ++ b)) = a ++ fst (span f b).
Proof.
  induction 1 as [|c a Hc _ IH]; simpl; [done|].
  rewrite Hc. destruct (span f (a ++ b)) as [u w]. simpl in *. by rewrite IH.
Qed.

Lemma span_fst_Forall {A} (f : A → bool) (s : list A) :
  Forall (λ c, f c = true) (fst (span f s)).
Proof.
  induction s as [|c s IH]; simpl; [constructor|].
  destruct (f c) eqn:E; [|constructor]. destruct (span f s). simpl in *.
  by constructor.
Qed.

Definition not_slash (c : char) : bool := negb (c =? slash).

Lemma basename_not_slash p : Forall (λ c, not_slash c = true) (basename p).
Proof.
  unfold basename. apply Forall_reverse. apply (span_fst_Forall not_slash).
Qed.

(** No run of characters without a slash at the end of a path is longer
    than its base name. *)
Lemma basename_longest p pre s :
  p = pre ++ s → Forall (λ c, not_slash c = true) s →
  (length s ≤ length (basename p))%nat.
Proof.
  intros -> Hs. unfold basename. rewrite length_reverse, reverse_app.
  change (λ c : char, negb (c =? slash)) with not_slash.
  rewrite span_Forall_app by by apply Forall_reverse.
  rewrite length_app, length_reverse. lia.
Qed.

Lemma path_join_suffix a b : ∃ pre, path_join a b = pre ++ b.
Proof.
  unfold path_join. destruct (startswith b [slash]); [by exists []|].
  destruct (_ || _); [by exists a|]. exists (a ++ [slash]). by rewrite <- app_assoc.
Qed.

Lemma suffixes_short suf : In suf suffixes → (1 ≤ length suf ≤ 7)%nat.
Proof.
  unfold suffixes. simpl.
  intros [<-|[<-|[<-|[<-|[<-|[<-|[]]]]]]]; vm_compute; lia.
Qed.

Lemma out_name_shape U path gzip_save :
  Forall (λ c, not_slash c = true) (out_name U path gzip_save) ∧
  (length (basename path) < length (out_name U path gzip_save))%nat.
Proof.
  unfold out_name. cbv zeta.
  set (stem := match List.find _ suffixes with
               | Some suf => slice_to (basename path) (- Z.of_nat (length suf))
               | None => basename path
               end).
  assert (Forall (λ c, not_slash c = true) stem ∧
          (length (basename path) ≤ length stem + 7)%nat) as [Hs Hl].
  { unfold stem. destruct (List.find _ suffixes) as [suf|] eqn:Hf.
    - apply find_some in Hf as [Hin _]. apply suffixes_short in Hin.
      unfold slice_to. split.
      + apply Forall_take, basename_not_slash.
      + rewrite length_take. unfold slice_bound.
        clear stem. revert Hin. generalize (length suf) (length (basename path)).
        intros k n Hk. destruct (Z.ltb_spec (- Z.of_nat k) 0); lia.
    - split; [apply basename_not_slash|lia]. }
  set (ext := if bool_decide (_sep_from_path U path = tab) then py ".tsv" else py ".csv").
  assert (Forall (λ c, not_slash c = true) ext ∧ length ext = 4%nat) as [He Hle].
  { unfold ext. case_bool_decide; split; try done; vm_compute; repeat constructor. }
  assert (Forall (λ c, not_slash c = true) (py "_maked")) as Hm
    by (vm_compute; repeat constructor).
  assert (Forall (λ c, not_slash c = true) (py ".gz")) as Hg
    by (vm_compute; repeat constructor).
  destruct (gzip_save && _).
  - split; [by repeat (apply Forall_app; split)|].
    rewrite !length_app, Hle. simpl. lia.
  - split; [by repeat (apply Forall_app; split)|].
    rewrite !length_app, Hle. simpl. lia.
Qed.

(** The output path is never the input path: the writer, which appends to
    its output file, cannot append to the file it reads. *)
Theorem output_path_differs (U : Unicode) (path : str) (out_dir : option str)
    (gzip_save : bool) :
  out_path U path out_dir gzip_save ≠ path.
Proof.
  unfold out_path. intros Heq.
  destruct (path_join_suffix
              (match out_dir with Some ((_ :: _) as d) => d | _ => dirname path end)
              (out_name U path gzip_save)) as [pre Hpre].
  rewrite Hpre in Heq. symmetry in Heq.
  destruct (out_name_shape U path gzip_save) as [Hs Hl].
  pose proof (basename_longest path pre _ Heq Hs). lia.
Qed.

(** *** What every streamed file looks like *)

Lemma same_untargeted_app labels targets r1 r1' r2 r2' :
  same_untargeted labels targets r1 r1' → same_untargeted labels targets r2 r2' →
  same_untargeted labels targets (r1 ++ r2) (r1' ++ r2').
Proof.
  intros [Hl1 H1] [Hl2 H2]. split; [rewrite !length_app; lia|].
  intros i j l Hj Hl. specialize (H1 i j l Hj Hl). specialize (H2 (i - length r1)%nat j l Hj Hl).
  unfold cell_at in *. cbn [rows] in *.
  destruct (decide (i < length r1)%nat).
  - by rewrite !lookup_app_l by lia.
  - rewrite !lookup_app_r by lia. by rewrite Hl1.
Qed.

Lemma apply_masking_untargeted R P labels tm rws tm' d :
  _apply_masking R P tm (frame labels rws) = Ok (tm', d) →
  columns d = labels ∧ same_untargeted labels (cols P) rws (rows d) ∧ tm ⊆ tm'.
Proof.
  intros H. pose proof (dispatcher_extends_token_map R P tm tm' _ _ H) as (Hs & _).
  apply apply_cols_frame in H as (Hc & Hl & Hf). cbn [columns rows] in *.
  split; [done|]. split; [|done]. split; [done|].
  intros i j l Hj Hn. rewrite <- (Hf i j l Hj Hn). unfold cell_at. done.
Qed.

Lemma stream_chunks_tail R P labels batches tm file tm' file' :
  file ≠ [] →
  stream_chunks R P false ((λ rws, frame labels rws) <$> batches) false tm file
  = Ok (tm', file') →
  ∃ rws', file' = file ++ (DataLine <$> rws') ∧
          same_untargeted labels (cols P) (concat batches) rws' ∧ tm ⊆ tm'.
Proof.
  revert tm file. induction batches as [|r batches IH]; intros tm file Hne.
  - intros [= <- <-]. exists []. rewrite app_nil_r. split; [done|]. split; [|done].
    split; [done|]. done.
  - rewrite fmap_cons, stream_chunks_cons.
    destruct (_apply_masking R P tm (frame labels r)) as [[tm1 d1]|e] eqn:H1; [|done].
    intros H. apply IH in H as (rws2 & -> & Hu2 & Hs2);
      [|by destruct file].
    apply apply_masking_untargeted in H1 as (Hc1 & Hu1 & Hs1).
    exists (rows d1 ++ rws2). split; [|split].
    + unfold to_csv, csv_text. rewrite (bool_decide_eq_false_2 (file = [])) by done.
      cbn [orb andb app]. by rewrite fmap_app, <- !app_assoc.
    + cbn [concat]. by apply same_untargeted_app.
    + by etrans.
Qed.

(** Whatever the policy, a run of [stream_mask_save] on a delimited file
    that writes without compression and ends without an error has
    appended a byte-order mark if the output file was empty, then the
    labels once and one line per row of the input, in which every cell of
    a column that is not a target is the cell of the input; and the token
    map it leaves extends the one it found. *)
Theorem streamed_file_structure (U : Unicode) (R : Runtime) (P : Policy) (path : str)
    (table : DataFrame) (chunksize : nat) (out_dir : option str) (gzip_save : bool)
    (tm tm' : token_map) (existing file : list line) (p : str) :
  endswith (lower U path) (py ".xlsx") || endswith (lower U path) (py ".xls") = false →
  compression U path gzip_save = false →
  stream_mask_save U R P path table chunksize out_dir gzip_save tm existing
  = Ok (p, tm', file) →
  p = out_path U path out_dir gzip_save ∧ tm ⊆ tm' ∧
  ∃ rws', file = existing ++ (if bool_decide (existing = []) then [BOM] else [])
                   ++ HeaderLine (columns table) :: (DataLine <$> rws') ∧
          length rws' = length (rows table) ∧
          ∀ i j l, columns table !! j = Some l → l ∉ cols P →
                   cell_at (frame (columns table) rws') i j = cell_at table i j.
Proof.
  intros Hx Hc. unfold stream_mask_save. rewrite Hx, Hc. unfold read_csv_chunks.
  destruct chunksize as [|k]; [done|].
  rewrite fmap_cons, stream_chunks_cons.
  destruct (_apply_masking R P tm _) as [[tm1 d1]|e] eqn:H1; [|done].
  destruct (stream_chunks R P _ _ false tm1 _) as [[tm2 file2]|e] eqn:H2; [|done].
  intros [= <- <- <-].
  apply apply_masking_untargeted in H1 as (Hc1 & Hu1 & Hs1).
  assert (to_csv d1 true false existing
          = (if bool_decide (existing = []) then [BOM] else [])
              ++ HeaderLine (columns table) :: (DataLine <$> rows d1)) as Hw.
  { unfold to_csv, csv_text. rewrite Hc1. cbn [orb app].
    rewrite (bool_decide_eq_false_2 (HeaderLine _ :: _ = [])) by done.
    by case_bool_decide. }
  rewrite Hw in H2.
  apply stream_chunks_tail in H2 as (rws2 & -> & Hu2 & Hs2);
    [|by destruct existing; case_bool_decide].
  split; [done|]. split; [by etrans|].
  exists (rows d1 ++ rws2).
  pose proof (same_untargeted_app _ _ _ _ _ _ Hu1 Hu2) as [Hl Hu].
  rewrite chunk_rows_concat, take_drop in Hl, Hu by lia.
  split; [|split].
  - rewrite fmap_app, <- !app_assoc. cbn [app]. done.
  - done.
  - intros i j l Hj Hn. rewrite (Hu i j l Hj Hn). by destruct table.
Qed.

Lemma streamed_file_structure_witness :
  ∃ rws', [ BOM;
            HeaderLine [py "name"; py "tel"];
            DataLine [Str (py "TKN_0000001"); Str (py "TKN_0000002")];
            DataLine [Str (py "TKN_0000003"); Str (py "TKN_0000004")];
            DataLine [Str (py "TKN_0000001"); Str (py "")] ]
          = [] ++ (if bool_decide (@nil line = []) then [BOM] else [])
               ++ HeaderLine (columns people) :: (DataLine <$> rws') ∧
          length rws' = length (rows people) ∧
          ∀ i j l, columns people !! j = Some l →
                   l ∉ cols (demo_policy Tokenize [py "name"; py "tel"]) →
                   cell_at (frame (columns people) rws') i j = cell_at people i j.
Proof.
  refine (proj2 (proj2 (streamed_file_structure basic_latin (mini_runtime NaN)
            (demo_policy Tokenize [py "name"; py "tel"]) (py "/srv/in/people.csv")
            people 1 None false ∅
            (fst (tokenize_values (py "TKN_") ∅
                    [py "sato"; py "03-1234"; py "suzuki"; py "06-5678"]))
            [] _ (py "/srv/in/people_maked.csv") _ _ _))).
  - reflexivity.
  - reflexivity.
  - vm_compute. reflexivity.
Defined.

(** *** The credit-card preset *)

Lemma sub_from_delete_length re subject pos adv :
  (pos ≤ length subject)%nat →
  (length (sub_from re (λ _, []) subject pos adv) ≤ length subject - pos)%nat.
Proof.
  remember (λ _ : match_obj, @nil N) as repl eqn:Hrepl.
  funelim (sub_from re repl subject pos adv); intros Hpos.
  - destruct (search_admissible _ _ _ _ _ Hm) as (H1 & H2 & H3 & H4).
    rewrite !length_app, length_take, length_drop. simpl.
    specialize (H H3). lia.
  - by rewrite length_drop.
Qed.

(** The credit-card preset returns asterisks followed by at most four
    characters, and never a text longer than the value. *)
Theorem credit_card_reveals_four (R : Runtime) (x : str) :
  ∃ kept, PRESETS R CreditCard x
          = replicate (length (PRESETS R CreditCard x) - length kept) 42 ++ kept ∧
          (length kept ≤ 4)%nat ∧
          (length (PRESETS R CreditCard x) ≤ length x)%nat.
Proof.
  unfold PRESETS. set (digits := sub (nondigit_re R) (λ _, []) x).
  assert (length digits ≤ length x)%nat as Hd.
  { unfold digits, sub.
    pose proof (sub_from_delete_length (nondigit_re R) x 0 false). lia. }
  clearbody digits. exists (slice_from digits (-4)). rewrite times_star.
  assert (length (slice_from digits (-4)) = (length digits `min` 4)%nat) as Hk.
  { unfold slice_from, slice_bound. rewrite length_drop.
    change (-4 <? 0)%Z with true. cbv iota. lia. }
  rewrite length_app, length_replicate, Hk. split; [|split].
  - f_equal. f_equal. lia.
  - lia.
  - lia.
Qed.

(** *** The separator of the readers and of the writer *)

Lemma endswith_spec {A} `{EqDecision A} (s p : list A) :
  endswith s p = true ↔ ∃ a, s = a ++ p.
Proof.
  unfold endswith. rewrite startswith_spec. split.
  - intros [b Hb]. exists (reverse b). apply (inj reverse).
    by rewrite Hb, reverse_app, reverse_involutive.
  - intros [a ->]. exists (reverse a). by rewrite reverse_app.
Qed.

Lemma endswith_app_r {A} `{EqDecision A} (s p q : list A) :
  endswith s (p ++ q) = true → endswith s q = true.
Proof.
  rewrite !endswith_spec. intros [a ->]. exists (a ++ p). by rewrite <- app_assoc.
Qed.

Lemma endswith_last {A} `{EqDecision A} (s p q : list A) (x y : A) :
  x ≠ y → endswith s (p ++ [x]) = true → endswith s (q ++ [y]) = false.
Proof.
  intros Hxy. rewrite endswith_spec. intros [a ->].
  destruct (endswith _ (q ++ [y])) eqn:E; [|done].
  apply endswith_spec in E as [b Hb].
  rewrite !app_assoc in Hb. apply app_inj_tail in Hb as [_ Hb]. done.
Qed.

(** On a delimited file, whenever the chunked writer reads with tabs the
    preview reader read with tabs too; the two differ only for a
    compressed file whose name contains [.tsv] without ending in
    [.tsv.gz], which is previewed with tabs and streamed with commas. *)
Theorem reader_and_writer_separators (U : Unicode) (path : str) (sep : str)
    (gzip : bool) :
  read_table_from_path U path = ReadCsv sep gzip →
  (_sep_from_path U path = tab → sep = tab) ∧
  (sep ≠ _sep_from_path U path →
   sep = tab ∧ gzip = true ∧ contains (py ".tsv") (lower U path) = true ∧
   endswith (lower U path) (py ".tsv.gz") = false).
Proof.
  unfold read_table_from_path, _sep_from_path. cbv zeta.
  destruct (endswith _ (py ".xlsx") || endswith _ (py ".xls")); [done|].
  destruct (endswith (lower U path) (py ".gz")) eqn:Hgz.
  - assert (endswith (lower U path) (py ".tsv") = false) as Ht.
    { apply (endswith_last (lower U path) (py ".g") (py ".ts") 122 118); [done|].
      exact Hgz. }
    rewrite Ht. simpl.
    destruct (endswith (lower U path) (py ".tsv.gz")) eqn:Htg; simpl.
    + intros [= <- <-]. split; [done|]. done.
    + destruct (contains (py ".tsv") (lower U path)) eqn:Hc.
      * intros [= <- <-]. split; [done|]. done.
      * intros [= <- <-]. split; [done|]. done.
  - assert (endswith (lower U path) (py ".tsv.gz") = false) as Htg.
    { destruct (endswith _ (py ".tsv.gz")) eqn:E; [|done].
      apply (endswith_app_r _ (py ".tsv") (py ".gz")) in E. congruence. }
    rewrite Htg, orb_false_r.
    destruct (endswith (lower U path) (py ".tsv")); intros [= <- <-]; done.
Qed.

Lemma reader_and_writer_separators_witness :
  read_table_from_path basic_latin (py "/srv/in/a.tsv.bak.gz") = ReadCsv tab true ∧
  tab ≠ _sep_from_path basic_latin (py "/srv/in/a.tsv.bak.gz") ∧
  tab = tab ∧ true = true ∧
  contains (py ".tsv") (lower basic_latin (py "/srv/in/a.tsv.bak.gz")) = true ∧
  endswith (lower basic_latin (py "/srv/in/a.tsv.bak.gz")) (py ".tsv.gz") = false.
Proof.
  split; [reflexivity|]. split; [vm_compute; discriminate|].
  apply (reader_and_writer_separators basic_latin (py "/srv/in/a.tsv.bak.gz") tab true).
  - reflexivity.
  - vm_compute; discriminate.
Defined.

Example separators_differ :
  read_table_from_path basic_latin (py "/srv/in/a.tsv.bak.gz") = ReadCsv tab true ∧
  _sep_from_path basic_latin (py "/srv/in/a.tsv.bak.gz") = py ",".
Proof. split; reflexivity. Qed.

End MaskingMore.

(** ** Further properties of the generator *)

Section GeneratorMore.
Import DbtTrsGenerator DbtTrsGeneratorMore Spec Examples SheetExample.

Lemma scan_mapping_range tbl excel_type u :
  scan_mapping tbl excel_type u ∈ py "varchar(100)" :: (snd <$> tbl).
Proof.
  induction tbl as [|[k v] tbl IH]; simpl; [left|].
  destruct (contains k u || contains u k).
  - destruct (bool_decide (v = py "varchar") && negb (contains (py "(") excel_type));
      [left|right; left].
  - apply elem_of_cons in IH as [->|IH]; [left|]. right. by right.
Qed.

Lemma scan_mapping_bare tbl excel_type u :
  scan_mapping tbl excel_type u = py "varchar" → contains (py "(") excel_type = true.
Proof.
  induction tbl as [|[k v] tbl IH]; simpl; [done|].
  destruct (contains k u || contains u k); [|done].
  destruct (contains (py "(") excel_type); [done|]. simpl. rewrite andb_true_r.
  case_bool_decide; [done|congruence].
Qed.

(** Whatever the declared type, the normaliser returns ["varchar(100)"],
    a target of its keyword table, or [varchar(d)] or [number(d)] for a
    non-empty run of digits [d]; the bare ["varchar"] is returned only
    for a declared type that contains a parenthesis. *)
Theorem normaliser_range (U : Unicode) (excel_type : str) :
  let r := convert_excel_type_to_snowflake U excel_type in
  (r ∈ py "varchar(100)" :: (snd <$> type_mapping) ∨
   ∃ digits, digits ≠ [] ∧ Forall (λ c, isdecimal U c = true) digits ∧
             (r = py "varchar(" ++ digits ++ py ")" ∨
              r = py "number(" ++ digits ++ py ")")) ∧
  (r = py "varchar" → contains (py "(") excel_type = true).
Proof.
  unfold convert_excel_type_to_snowflake.
  destruct excel_type as [|c0 x]; [split; [left; left|done]|].
  set (x0 := c0 :: x). set (u := strip U (upper U x0)). cbv zeta.
  destruct (match_sized U u) as [[letters digits]|] eqn:Hm; simpl sized_type.
  - destruct (match_sized_shape _ _ _ _ Hm) as (rest & _ & _ & _ & Hd & Hf).
    repeat case_bool_decide.
    + split; [right; exists digits; eauto|].
      intros Hr. apply (f_equal (λ s, s !! 7%nat)) in Hr. cbv in Hr. done.
    + split; [right; exists digits; eauto|].
      intros Hr. apply (f_equal (λ s, s !! 0%nat)) in Hr. cbv in Hr. done.
    + split; [left; apply scan_mapping_range|apply scan_mapping_bare].
  - split; [left; apply scan_mapping_range|apply scan_mapping_bare].
Qed.

(** *** Row selection *)

Lemma selected_mask_lookup n (sel : list bool) i :
  selected_mask n sel !! i = Some true ↔ (i < n)%nat ∧ sel !! i = Some true.
Proof.
  unfold selected_mask. rewrite lookup_take_Some. split.
  - intros [H Hi]. split; [done|].
    destruct (decide (i < length (take n sel))%nat) as [Hl|Hl].
    + rewrite lookup_app_l in H by done. by apply lookup_take_Some in H as [H _].
    + rewrite lookup_app_r in H by lia. by apply lookup_replicate in H as [? _].
  - intros [Hi H]. split; [|done].
    rewrite lookup_app_l.
    + by rewrite lookup_take_lt.
    + rewrite length_take. apply lookup_lt_Some in H. lia.
Qed.

Lemma boolean_index_elem {A} (xs : list A) (mask : list bool) (x : A) :
  x ∈ boolean_index xs mask ↔ ∃ i, xs !! i = Some x ∧ mask !! i = Some true.
Proof.
  unfold boolean_index. rewrite list_elem_of_fmap. split.
  - intros ([y b] & -> & H). apply list_elem_of_filter in H as [Hb H].
    simpl in Hb. subst b. apply list_elem_of_lookup in H as [i H].
    apply lookup_zip_with_Some in H as (x' & b' & [= <- <-] & Hx & Hm). eauto.
  - intros (i & Hx & Hm). exists (x, true). split; [done|].
    apply list_elem_of_filter. split; [done|].
    apply list_elem_of_lookup. exists i. apply lookup_zip_with_Some. eauto.
Qed.

Lemma boolean_index_sublist {A} (xs : list A) (mask : list bool) :
  boolean_index xs mask `sublist_of` xs.
Proof.
  unfold boolean_index. revert mask.
  induction xs as [|x xs IH]; intros [|b mask]; simpl; try apply sublist_nil_l.
  rewrite filter_cons. destruct b; csimpl.
  - apply sublist_skip, IH.
  - apply sublist_cons, IH.
Qed.

Lemma filter_sublist_mono {A} (P : A → Prop) `{∀ x, Decision (P x)} (l1 l2 : list A) :
  l1 `sublist_of` l2 → filter P l1 `sublist_of` filter P l2.
Proof.
  induction 1 as [|x l1 l2 _ IH|x l1 l2 _ IH].
  - constructor.
  - rewrite !filter_cons. case_decide; [by apply sublist_skip|done].
  - rewrite filter_cons. case_decide; [by apply sublist_cons|done].
Qed.

(** With a list of check marks, the generator works on the rows that are
    checked and have a physical name, in the order of the sheet; a row
    beyond the end of the list counts as unchecked. *)
Theorem selection_keeps_checked_rows (p : nat) (df : DataFrame) (sel : list bool) :
  (∀ row, row ∈ clean_rows p df (Some sel) ↔
          ∃ i, rows df !! i = Some row ∧ sel !! i = Some true ∧
               notna (at_col p row) = true) ∧
  clean_rows p df (Some sel) `sublist_of` clean_rows p df None.
Proof.
  unfold clean_rows. split.
  - intros row. rewrite list_elem_of_filter, boolean_index_elem. split.
    + intros (Hn & i & Hr & Hm). apply selected_mask_lookup in Hm as [_ Hm]. eauto.
    + intros (i & Hr & Hm & Hn). split; [done|]. exists i. split; [done|].
      apply selected_mask_lookup. split; [|done]. by apply lookup_lt_Some in Hr.
  - apply filter_sublist_mono, boolean_index_sublist.
Qed.

(** *** The two stages of the generated SQL *)

Lemma stages_aligned_from U p t rws k :
  length (extraction_columns U p t rws k) = length (select_columns U p rws) ∧
  ∀ i sel, select_columns U p rws !! i = Some sel →
    ∃ row, row ∈ rws ∧
      let name := strip U (py_str (at_col p row)) in
      let data_type := if notna (at_col t row) then strip U (py_str (at_col t row))
                       else py "varchar(100)" in
      name ≠ [] ∧ name ≠ py "nan" ∧
      (sel = py "    " ++ name ∨ sel = gender_case name) ∧
      extraction_columns U p t rws k !! i
      = Some (column_def U (k + i) (convert_excel_type_to_snowflake U data_type) name).
Proof.
  revert k. induction rws as [|row rws IH]; intros k; [done|].
  cbn [extraction_columns select_columns]. cbv zeta.
  set (name := strip U (py_str (at_col p row))).
  destruct (IH k) as [Hl Hk]. destruct (IH (k + 1)%nat) as [Hl1 Hk1].
  do 2 case_bool_decide; simpl.
  - split; [done|]. intros i sel Hs. destruct (Hk i sel Hs) as (r & Hr & H').
    exists r. split; [by right|done].
  - split; [done|]. intros i sel Hs. destruct (Hk i sel Hs) as (r & Hr & H').
    exists r. split; [by right|done].
  - split; [done|]. intros i sel Hs. destruct (Hk i sel Hs) as (r & Hr & H').
    exists r. split; [by right|done].
  - split; [by rewrite Hl1|]. intros [|i] sel Hs.
    + exists row. split; [left|]. fold name. injection Hs as <-.
      rewrite Nat.add_0_r. repeat split; try done.
      destruct (contains _ _ || contains _ _); eauto.
    + destruct (Hk1 i sel Hs) as (r & Hr & Hn1 & Hn2 & Hsel & Hx).
      exists r. split; [by right|]. repeat split; try done. simpl.
      rewrite Hx. do 2 f_equal. lia.
Qed.

(** For role columns that are distinct labels of the sheet, the SQL text
    is built from an extraction stage and a selection stage that list the
    same rows in the same order: the [i]-th selected column, counted from
    0, is the stripped name of a row kept for generation (or the case
    expression on it), and the [i]-th extraction column reads slot
    [c(1+i)] under that name with the normalised type of that row.  Rows
    skipped for a blank name take no slot. *)
Theorem stages_aligned (U : Unicode) (df : DataFrame) (source_schema source_table : str)
    (physical_col type_col : str) (logical_col desc_col : option str)
    (selected_rows : option (list bool)) (p t : nat) (l d : option nat) :
  physical_col ≠ [] → type_col ≠ [] →
  NoDup (physical_col :: type_col :: omap chosen [logical_col; desc_col]) →
  col_index df physical_col = Some p → col_index df type_col = Some t →
  role_index df (chosen logical_col) = Some l →
  role_index df (chosen desc_col) = Some d →
  let rws := clean_rows p df selected_rows in
  let cols := extraction_columns U p t rws 1 in
  let sels := select_columns U p rws in
  generate_dbt_sql_with_mapping U df source_schema source_table physical_col type_col
    selected_rows
  = Ok (Some (sql_text source_schema source_table cols sels)) ∧
  length cols = length sels ∧
  ∀ i sel, sels !! i = Some sel →
    ∃ row, row ∈ rws ∧
      let name := strip U (py_str (at_col p row)) in
      let data_type := if notna (at_col t row) then strip U (py_str (at_col t row))
                       else py "varchar(100)" in
      name ≠ [] ∧ name ≠ py "nan" ∧
      (sel = py "    " ++ name ∨ sel = gender_case name) ∧
      cols !! i
      = Some (column_def U (1 + i) (convert_excel_type_to_snowflake U data_type) name).
Proof.
  intros Hp Ht _ Hpi Hti _ _ rws cols sels. split.
  - unfold generate_dbt_sql_with_mapping.
    rewrite !bool_decide_eq_false_2 by done. simpl orb. cbv iota.
    by rewrite Hpi, Hti.
  - apply stages_aligned_from.
Qed.

Lemma stages_aligned_witness :
  let rws := clean_rows 0 design_sheet None in
  let cols := extraction_columns basic_latin 0 1 rws 1 in
  let sels := select_columns basic_latin 0 rws in
  generate_dbt_sql_with_mapping basic_latin design_sheet (py "test") (py "customer_master")
    (py "物理名") (py "データ型") None
  = Ok (Some (sql_text (py "test") (py "customer_master") cols sels)) ∧
  length cols = length sels ∧
  ∀ i sel, sels !! i = Some sel →
    ∃ row, row ∈ rws ∧
      let name := strip basic_latin (py_str (at_col 0 row)) in
      let data_type := if notna (at_col 1 row)
                       then strip basic_latin (py_str (at_col 1 row))
                       else py "varchar(100)" in
      name ≠ [] ∧ name ≠ py "nan" ∧
      (sel = py "    " ++ name ∨ sel = gender_case name) ∧
      cols !! i
      = Some (column_def basic_latin (1 + i)
                (convert_excel_type_to_snowflake basic_latin data_type) name).
Proof.
  apply (stages_aligned basic_latin design_sheet (py "test") (py "customer_master")
           (py "物理名") (py "データ型") (Some (py "論理名")) None None 0 1
           (Some 2%nat) None).
  - discriminate.
  - discriminate.
  - apply (bool_decide_unpack _). vm_compute. exact I.
  - reflexivity.
  - reflexivity.
  - reflexivity.
  - reflexivity.
Defined.

(** The two stages for the example sheet. *)
Example design_sheet_sql :
  let rws := clean_rows 0 design_sheet None in
  extraction_columns basic_latin 0 1 rws 1
  = [ py "            nullif(value:c1, '')::number(10) as customer_id";
      py "            value:c2::varchar(100) as gender";
      py "            value:c3::varchar(100) as memo" ] ∧
  length (select_columns basic_latin 0 rws) = 3%nat.
Proof. vm_compute. split; reflexivity. Qed.

(** *** Detection of the role columns *)

Lemma detect_get U d col r :
  get (detect U d col) r = if decide (role_of U col = Some r) then Some col else get d r.
Proof.
  unfold detect, role_of. cbv zeta.
  destruct (any_in physical_keywords _); [destruct r; by case_decide|].
  destruct (any_in type_keywords _); [destruct r; by case_decide|].
  destruct (any_in logical_keywords _); [destruct r; by case_decide|].
  destruct (any_in desc_keywords _); [destruct r; by case_decide|].
  by case_decide.
Qed.

Lemma foldl_detect_get U cols d r :
  get (foldl (detect U) d cols) r =
  match last (filter (λ c, role_of U c = Some r) cols) with
  | Some c => Some c
  | None => get d r
  end.
Proof.
  revert d. induction cols as [|c cols IH]; intros d; simpl; [done|].
  rewrite IH, detect_get, filter_cons.
  case_decide; [|done]. rewrite last_cons.
  by destruct (last (filter _ cols)).
Qed.

(** Each role gets the last label of the sheet that is taken for it, a
    label being taken for the first of physical, type, logical and
    description with a keyword in it, and for no other; a role with no
    such label stays undetected. *)
Theorem auto_detect_last_match (U : Unicode) (df : DataFrame) (r : role) :
  get (auto_detect_columns U df) r
  = last (filter (λ c, role_of U c = Some r) (columns df)).
Proof.
  unfold auto_detect_columns. rewrite foldl_detect_get.
  destruct (last _); [done|]. by destruct r.
Qed.

(** A detected column is a label of the sheet, and it is not detected
    for a second role. *)
Theorem detected_roles_distinct (U : Unicode) (df : DataFrame) (r r' : role) (c : str) :
  r ≠ r' →
  get (auto_detect_columns U df) r = Some c →
  c ∈ columns df ∧ get (auto_detect_columns U df) r' ≠ Some c.
Proof.
  rewrite !auto_detect_last_match. intros Hr H.
  apply last_Some_elem_of, list_elem_of_filter in H as [H Hc].
  split; [done|]. intros H'.
  apply last_Some_elem_of, list_elem_of_filter in H' as [H' _]. congruence.
Qed.

Lemma detected_roles_distinct_witness :
  py "物理名" ∈ [py "物理名"; py "データ型"] ∧
  get (auto_detect_columns basic_latin (frame [py "物理名"; py "データ型"] []))
      TypeRole ≠ Some (py "物理名").
Proof.
  apply (detected_roles_distinct basic_latin (frame [py "物理名"; py "データ型"] [])
           Physical TypeRole (py "物理名")).
  - discriminate.
  - reflexivity.
Defined.

(** *** The text of a description *)

Lemma span_snd_head {A} (f : A → bool) (s : list A) c r :
  snd (span f s) = c :: r → f c = false.
Proof.
  induction s as [|x s IH]; simpl; [done|].
  destruct (f x) eqn:E.
  - destruct (span f s). simpl in *. done.
  - simpl. by intros [= <- _].
Qed.

Lemma split_words U s :
  Forall (λ w, w ≠ [] ∧ Forall (λ c, isspace U c = false ∧ c ∈ s) w) (split U s).
Proof.
  funelim (split U s); [constructor|].
  clear Heqcall. rename c into c0.
  pose proof (span_app (isspace U) s) as Hs0. unfold lstrip in Hs.
  rewrite Hs in Hs0.
  pose proof (span_app (λ x, negb (isspace U x)) r) as Hr.
  pose proof (span_Forall (λ x, negb (isspace U x)) r) as Hf.
  rewrite Hw in Hr, Hf. simpl in Hr, Hf.
  assert (∀ c, c ∈ c0 :: r → c ∈ s) as Hin.
  { intros c Hc. rewrite <- Hs0. apply elem_of_app. by right. }
  constructor.
  - split; [done|]. constructor.
    + split; [by apply (span_snd_head _ _ _ _ Hs)|]. apply Hin. left.
    + apply Forall_forall. intros c Hc. split.
      * rewrite Forall_forall in Hf. specialize (Hf c Hc).
        by apply negb_true_iff in Hf.
      * apply Hin. right. rewrite <- Hr. apply elem_of_app. by left.
  - eapply Forall_impl; [exact H|]. intros w1 [Hne Hw']. split; [done|].
    eapply Forall_impl; [exact Hw'|]. intros c [Hc1 Hc2]. split; [done|].
    apply Hin. right. rewrite <- Hr. apply elem_of_app. by right.
Qed.

Lemma join_chars {A} (sep : list A) (ws : list (list A)) (c : A) :
  c ∈ join sep ws → c ∈ sep ∨ ∃ w, w ∈ ws ∧ c ∈ w.
Proof.
  induction ws as [|w ws IH]; [by intros ?%elem_of_nil|].
  destruct ws as [|w' ws].
  - simpl. intros H. right. exists w. split; [left|done].
  - change (join sep (w :: w' :: ws)) with (w ++ sep ++ join sep (w' :: ws)).
    rewrite !elem_of_app. intros [H|[H|H]].
    + right. exists w. split; [left|done].
    + by left.
    + destruct (IH H) as [?|(w0 & Hw0 & Hc)]; [by left|].
      right. exists w0. split; [by right|done].
Qed.

Lemma replace_chars old new s c :
  c ∈ replace old new s → c ∈ new ∨ (c ∈ s ∧ c ≠ old).
Proof.
  unfold replace. rewrite list_elem_of_In, in_flat_map.
  intros (x & Hx & Hc). apply list_elem_of_In in Hx.
  case_bool_decide.
  - left. by apply list_elem_of_In.
  - right. apply list_elem_of_In, list_elem_of_singleton in Hc. by subst.
Qed.

Lemma replace_quote_escaped s i :
  replace 34 [92; 34] s !! i = Some 34 →
  ∃ j, i = S j ∧ replace 34 [92; 34] s !! j = Some 92.
Proof.
  revert i. induction s as [|c s IH]; intros i; [done|].
  unfold replace in *. simpl. case_bool_decide; simpl.
  - destruct i as [|[|i]]; simpl; [done|by exists 0%nat|].
    intros H'. destruct (IH _ H') as (j & -> & Hj). by exists (S (S j)).
  - destruct i as [|i]; simpl; [congruence|].
    intros H'. destruct (IH _ H') as (j & -> & Hj). by exists (S j).
Qed.

(** A description written into models.yml from the sheet or from the
    model description holds no line feed and no carriage return, and each
    of its double quotes comes right after a backslash. *)
Theorem sanitize_one_line (U : Unicode) (text : str) :
  (∀ c, c ∈ sanitize U text → c ≠ 10 ∧ c ≠ 13) ∧
  (∀ i, sanitize U text !! i = Some 34 →
        ∃ j, i = S j ∧ sanitize U text !! j = Some 92).
Proof.
  unfold sanitize. cbv zeta. split; [|apply replace_quote_escaped].
  intros c Hc. apply replace_chars in Hc as [Hc|[Hc _]].
  { apply elem_of_cons in Hc as [->|Hc]; [done|].
    apply list_elem_of_singleton in Hc as ->. done. }
  apply join_chars in Hc as [Hc|(w & Hw & Hc)].
  { apply list_elem_of_singleton in Hc as ->. done. }
  pose proof (split_words U (replace 13 (py " ") (replace 10 (py " ") text))) as Hs.
  rewrite Forall_forall in Hs. destruct (Hs w Hw) as [_ Hf].
  rewrite Forall_forall in Hf. destruct (Hf c Hc) as [_ Hin].
  apply replace_chars in Hin as [Hin|[Hin H13]].
  { apply list_elem_of_singleton in Hin as ->. done. }
  apply replace_chars in Hin as [Hin|[Hin H10]].
  { apply list_elem_of_singleton in Hin as ->. done. }
  done.
Qed.

(** *** The models.yml text *)

Lemma name_line_prefix (name : str) :
  startswith (py "      - name: " ++ name) (py "      - name: ") = true.
Proof. apply startswith_spec. by exists name. Qed.

Lemma deeper_line (rest : str) :
  startswith (py "        " ++ rest) (py "      - name: ") = false.
Proof. reflexivity. Qed.

Lemma column_entry_names U name parts :
  filter (λ ln, startswith ln (py "      - name: ") = true) (column_entry U name parts)
  = [py "      - name: " ++ name].
Proof.
  unfold column_entry. rewrite filter_app, !filter_cons, filter_nil.
  rewrite (decide_True_pi (name_line_prefix name)).
  assert (∀ rest, ¬ startswith (py "        " ++ rest) (py "      - name: ") = true)
    as Hd by (intros rest; by rewrite deeper_line).
  assert (∀ x, ¬ startswith
            (match parts with
             | [] => py "        description: " ++ dq ++ name ++ dq
             | first :: _ =>
                 py "        description: " ++ dq ++ x first ++ dq
             end) (py "      - name: ") = true) as Hm.
  { intros x. destruct parts; apply (Hd (py "description: " ++ _)). }
  rewrite decide_False by apply Hm.
  rewrite decide_False by apply (Hd (py "# data_tests:")).
  rewrite decide_False by apply (Hd (py "#   - not_null")).
  destruct (contains _ _ || contains _ _); [|done].
  rewrite filter_cons, filter_nil.
  rewrite decide_False by apply (Hd (py "#   - unique")). done.
Qed.

Lemma yml_names_from U p l d rws :
  let names := filter (λ ln, startswith ln (py "      - name: ") = true)
                      (yml_columns U p l d rws) in
  length names = length (select_columns U p rws) ∧
  (yml_columns U p l d rws = [] ↔ select_columns U p rws = []) ∧
  ∀ i sel, select_columns U p rws !! i = Some sel →
    ∃ name, (sel = py "    " ++ name ∨ sel = gender_case name) ∧
            names !! i = Some (py "      - name: " ++ name).
Proof.
  induction rws as [|row rws IH]; [done|].
  cbn [yml_columns select_columns]. cbv zeta.
  set (name := strip U (py_str (at_col p row))).
  destruct (negb (bool_decide (name = [])) && negb (bool_decide (name = py "nan")));
    [|exact IH].
  destruct IH as (Hl & He & Hk).
  rewrite filter_app, column_entry_names. cbn [app]. split; [cbn [length]; by rewrite Hl|]. split.
  - split; [|done]. unfold column_entry. done.
  - intros [|i] sel Hs.
    + injection Hs as <-. exists name. split; [|done].
      destruct (contains _ _ || contains _ _); eauto.
    + apply (Hk i sel Hs).
Qed.

(** The column entries of the models.yml text follow the SQL: there is one
    [- name:] line per selected column, in the same order and with the
    same name. *)
Theorem yml_names_match_sql (U : Unicode) (p : nat) (l d : option nat)
    (rws : list (list cell)) :
  let names := filter (λ ln, startswith ln (py "      - name: ") = true)
                      (yml_columns U p l d rws) in
  length names = length (select_columns U p rws) ∧
  ∀ i sel, select_columns U p rws !! i = Some sel →
    ∃ name, (sel = py "    " ++ name ∨ sel = gender_case name) ∧
            names !! i = Some (py "      - name: " ++ name).
Proof.
  destruct (yml_names_from U p l d rws) as (H1 & _ & H3). by split.
Qed.

(** For distinct role columns that are labels of the sheet, a models.yml
    text is returned exactly when it is asked for, a logical-name or
    description column is chosen and the SQL selects at least one column;
    it is then the header followed by the column entries. *)
Theorem schema_yml_when (U : Unicode) (df : DataFrame) (model_name model_description : str)
    (physical_col type_col : str) (logical_col desc_col : option str)
    (include_comments : bool) (selected_rows : option (list bool))
    (p t : nat) (l d : option nat) :
  physical_col ≠ [] → type_col ≠ [] →
  NoDup (physical_col :: type_col :: omap chosen [logical_col; desc_col]) →
  col_index df physical_col = Some p → col_index df type_col = Some t →
  role_index df (chosen logical_col) = Some l →
  role_index df (chosen desc_col) = Some d →
  let y := schema_yml U df model_name model_description physical_col type_col
             logical_col desc_col include_comments selected_rows in
  let clean := clean_rows p df selected_rows in
  (y = Ok None ∨
   y = Ok (Some (join nl (yml_header U model_name model_description
                            ++ yml_columns U p l d clean)))) ∧
  (y ≠ Ok None ↔
   include_comments = true ∧
   (is_Some (chosen logical_col) ∨ is_Some (chosen desc_col)) ∧
   select_columns U p clean ≠ []).
Proof.
  intros Hp Ht _ Hpi Hti Hl Hd y clean. subst y. unfold schema_yml.
  rewrite !bool_decide_eq_false_2 by done. simpl orb. cbv iota.
  rewrite Hpi, Hti, Hl, Hd. fold clean.
  destruct (yml_names_from U p l d clean) as (_ & He & _).
  destruct include_comments; simpl andb; cycle 1.
  { split; [by left|]. split; [done|]. by intros [? _]. }
  destruct (bool_decide (is_Some (chosen logical_col))
            || bool_decide (is_Some (chosen desc_col))) eqn:Hc; cycle 1.
  { split; [by left|]. split; [done|]. intros (_ & Hs & _).
    apply orb_false_iff in Hc as [H1 H2].
    apply bool_decide_eq_false in H1, H2. tauto. }
  apply orb_true_iff in Hc. rewrite !bool_decide_eq_true in Hc.
  cbv zeta. rewrite length_app. change (length (yml_header _ _ _)) with 3%nat.
  destruct (yml_columns U p l d clean) as [|ln lns] eqn:Hy.
  - simpl. split; [by left|]. split; [done|]. intros (_ & _ & Hs).
    destruct Hs. by apply He.
  - replace (3 <? 3 + length (ln :: lns))%nat with true
      by (symmetry; apply Nat.ltb_lt; simpl; lia).
    split; [by right|]. split; [|done]. intros _. repeat split; [done|].
    intros Hs. by apply He in Hs.
Qed.

Lemma schema_yml_when_witness :
  let y := schema_yml basic_latin design_sheet (py "trs_customer") []
             (py "物理名") (py "データ型") (Some (py "論理名")) (Some (py "備考"))
             true None in
  let clean := clean_rows 0 design_sheet None in
  (y = Ok None ∨
   y = Ok (Some (join nl (yml_header basic_latin (py "trs_customer") []
                            ++ yml_columns basic_latin 0 (Some 2%nat) (Some 3%nat) clean)))) ∧
  (y ≠ Ok None ↔
   true = true ∧
   (is_Some (chosen (Some (py "論理名"))) ∨ is_Some (chosen (Some (py "備考")))) ∧
   select_columns basic_latin 0 clean ≠ []).
Proof.
  apply (schema_yml_when basic_latin design_sheet (py "trs_customer") []
           (py "物理名") (py "データ型") (Some (py "論理名")) (Some (py "備考"))
           true None 0 1 (Some 2%nat) (Some 3%nat)).
  - discriminate.
  - discriminate.
  - apply (bool_decide_unpack _). vm_compute. exact I.
  - reflexivity.
  - reflexivity.
  - reflexivity.
  - reflexivity.
Defined.

(** The column entries and the detected roles of the example sheet. *)
Example design_sheet_yml :
  yml_columns basic_latin 0 (Some 2%nat) (Some 3%nat) (clean_rows 0 design_sheet None)
  = [ py "      - name: customer_id";
      py "        description: " ++ dq ++ py "顧客ID" ++ dq;
      py "        # data_tests:";
      py "        #   - not_null";
      py "        #   - unique";
      py "      - name: gender";
      py "        description: " ++ dq ++ py "性別: 男 / 女 その他は 9" ++ dq;
      py "        # data_tests:";
      py "        #   - not_null";
      py "      - name: memo";
      py "        description: " ++ dq ++ py "memo" ++ dq;
      py "        # data_tests:";
      py "        #   - not_null" ].
Proof. vm_compute. reflexivity. Qed.

Example detection_of_design_sheet :
  auto_detect_columns basic_latin design_sheet
  = {| physical := Some (py "物理名"); type := Some (py "データ型");
       logical := Some (py "論理名"); desc := Some (py "備考") |}.
Proof. vm_compute. reflexivity. Qed.

End GeneratorMore.
